(** * Drishti backend: request orchestration pipeline

    A shallow embedding of the decision logic of the Drishti backend
    (router, chunker, keyword retrieval, model gateway, chat / audio /
    translation handlers) together with the properties established about it.

    Python values are modelled as follows.
    - [str] is a sequence of Unicode code points ([list N]); [len] is the
      number of code points, as in CPython.
    - [int] is [Z]; [//] is [Z.div] (floor division).
    - Exceptions are values of [exn]; a computation that may raise returns an
      [outcome].
    - MongoDB collections are lists of records in insertion order. *)

From Stdlib Require Import ZArith NArith List Bool Lia String Ascii FinFun.
Import ListNotations.
Local Open Scope Z_scope.

(* ===================================================================== *)
(** * Python strings *)
(* ===================================================================== *)

Definition codepoint := N.
Definition str := list codepoint.

(** An ASCII literal as a Python string. *)
Definition lit (s : string) : str :=
  map N_of_ascii (list_ascii_of_string s).

Definition len {A} (s : list A) : Z := Z.of_nat (List.length s).

Definition cp_eqb (a b : codepoint) : bool := N.eqb a b.

Fixpoint str_eqb (a b : str) : bool :=
  match a, b with
  | [], [] => true
  | x :: a', y :: b' => cp_eqb x y && str_eqb a' b'
  | _, _ => false
  end.

(** [s.startswith(sub)] *)
Fixpoint startswith (s sub : str) : bool :=
  match sub, s with
  | [], _ => true
  | c :: sub', d :: s' => cp_eqb c d && startswith s' sub'
  | _ :: _, [] => false
  end.

(** [sub in s] *)
Fixpoint contains (sub s : str) : bool :=
  startswith s sub ||
  match s with
  | [] => false
  | _ :: s' => contains sub s'
  end.

(** [x in {...}] for a set of strings. *)
Definition in_set (x : str) (s : list str) : bool := existsb (str_eqb x) s.

(** [sep.join(parts)] *)
Fixpoint join (sep : str) (parts : list str) : str :=
  match parts with
  | [] => []
  | [p] => p
  | p :: rest => p ++ sep ++ join sep rest
  end.

(** [str.isspace] on one code point (CPython's [_PyUnicode_IsWhitespace]). *)
Definition isspace (c : codepoint) : bool :=
  ((9 <=? c) && (c <=? 13) || (28 <=? c) && (c <=? 32) ||
   (c =? 133) || (c =? 160) || (c =? 5760) ||
   (8192 <=? c) && (c <=? 8202) ||
   (c =? 8232) || (c =? 8233) || (c =? 8239) || (c =? 8287) ||
   (c =? 12288))%N.

Fixpoint lstrip (s : str) : str :=
  match s with
  | c :: s' => if isspace c then lstrip s' else s
  | [] => []
  end.

Definition rstrip (s : str) : str := rev (lstrip (rev s)).

(** [s.strip()] *)
Definition strip (s : str) : str := rstrip (lstrip s).

(** [s.split()]: maximal runs of non-whitespace, [cur] is the run being read
    (reversed). *)
Fixpoint split_from (cur : str) (s : str) : list str :=
  match s with
  | [] => match cur with [] => [] | _ => [rev cur] end
  | c :: s' =>
      if isspace c
      then match cur with
           | [] => split_from [] s'
           | _ => rev cur :: split_from [] s'
           end
      else split_from (c :: cur) s'
  end.

Definition split (s : str) : list str := split_from [] s.

(** Index adjustment of slices and of the [start]/[end] arguments of
    [find]/[rfind]: negative indices count from the end, everything is clamped
    to [0 .. n]. *)
Definition adjust_index (n i : Z) : Z :=
  if i <? 0 then Z.max 0 (i + n) else Z.min i n.

(** [s[i:j]] *)
Definition slice {A} (s : list A) (i j : Z) : list A :=
  let n := len s in
  let i' := adjust_index n i in
  let j' := adjust_index n j in
  firstn (Z.to_nat (j' - i')) (skipn (Z.to_nat i') s).

(** [s[:k]] for a literal [k >= 0]. *)
Definition take {A} (k : nat) (s : list A) : list A := firstn k s.

Fixpoint rfind_down (s sub : str) (lo : Z) (n : nat) : Z :=
  match n with
  | O => -1
  | S n' =>
      let pos := lo + Z.of_nat n' in
      if startswith (skipn (Z.to_nat pos) s) sub then pos
      else rfind_down s sub lo n'
  end.

(** [s.rfind(sub, start, end)]: the highest index [pos] with
    [s[pos:pos+len(sub)] == sub] inside [s[start:end]], or [-1]. *)
Definition rfind (s sub : str) (start end_ : Z) : Z :=
  let n := len s in
  let a := adjust_index n start in
  let b := adjust_index n end_ in
  rfind_down s sub a (Z.to_nat (b - a - len sub + 1)).

(** Case tables of the runtime: [str.lower] of CPython and the caseless
    comparison of the store's regular-expression engine (option [i]).  Both are
    Unicode tables outside the repository, so the development is parametric in
    them. *)
Class CaseTables := {
  lower : str -> str;
  caseless_eq : codepoint -> codepoint -> bool
}.

Definition ascii_lower_cp (c : codepoint) : codepoint :=
  if ((65 <=? c) && (c <=? 90))%N then (c + 32)%N else c.

(** The tables restricted to ASCII letters; they agree with CPython on strings
    made of ASCII and of caseless code points (such as Devanagari). *)
Definition ascii_tables : CaseTables := {|
  lower := map ascii_lower_cp;
  caseless_eq := fun a b => cp_eqb (ascii_lower_cp a) (ascii_lower_cp b)
|}.

(* ===================================================================== *)
(** * Router  (services/llm/router.py) *)
(* ===================================================================== *)

Module Router.

Inductive model_choice := light | heavy.

Definition INDIC_LANGS : list str :=
  map lit ["hi"; "bn"; "mr"; "ta"; "te"; "gu"; "kn"; "ml"; "or"; "pa"]%string.

Definition HEAVY_KEYWORDS : list str :=
  map lit ["step by step"; "detailed"; "detail"; "explain"; "code";
           "algorithm"; "complex"; "advanced"]%string.

(** The [for keyword in HEAVY_KEYWORDS] loop: [Some heavy] is the early
    [return "heavy"], [None] is falling out of the loop. *)
Fixpoint scan_keywords (keywords : list str) (text_lower : str)
  : option model_choice :=
  match keywords with
  | [] => None
  | keyword :: rest =>
      if contains keyword text_lower then Some heavy
      else scan_keywords rest text_lower
  end.

Definition choose_model `{CaseTables} (user_text lang_code : str)
  : model_choice :=
  let text_lower := lower user_text in
  if len user_text >? 300 then heavy
  else
    match scan_keywords HEAVY_KEYWORDS text_lower with
    | Some r => r
    | None =>
        if in_set lang_code INDIC_LANGS && (len user_text <=? 300)
        then light
        else heavy
    end.

(** The decision table as the specification words it: four rules, the first
    that applies wins. *)
Definition choose_rules `{CaseTables} (text languageCode : str)
  : model_choice :=
  if len text >? 300 then heavy
  else if existsb (fun k => contains k (lower text)) HEAVY_KEYWORDS then heavy
  else if in_set languageCode INDIC_LANGS then light
  else heavy.

End Router.

(* ===================================================================== *)
(** * Chunker  (services/documents/parsers.py, [chunk_text]) *)
(* ===================================================================== *)

Module Chunker.

Definition boundary_chars : list str :=
  [lit ". "; lit "? "; lit "! "; [10; 10]%N].

(** The inner [for char_seq in boundary_chars] loop with its [break]. *)
Fixpoint find_break (text : str) (start end_ chunk_size : Z)
    (seqs : list str) (best_break : Z) : Z :=
  match seqs with
  | [] => best_break
  | char_seq :: rest =>
      let pos := rfind text char_seq start end_ in
      if pos >? start + chunk_size / 2 then pos + len char_seq
      else find_break text start end_ chunk_size rest best_break
  end.

(** One iteration of the [while start < text_length] body, on the loop state
    [(start, chunks)]. *)
Definition chunk_step (text : str) (chunk_size overlap : Z)
    (st : Z * list str) : Z * list str :=
  let '(start, chunks) := st in
  let text_length := len text in
  let end0 := start + chunk_size in
  let end_ :=
    if end0 <? text_length
    then find_break text start end0 chunk_size boundary_chars end0
    else end0 in
  let chunk := strip (slice text start end_) in
  let chunks' := match chunk with [] => chunks | _ => chunks ++ [chunk] end in
  let start' := if end_ <? text_length then end_ - overlap else text_length in
  (start', chunks').

(** The [while] loop, run for at most [fuel] iterations; [None] means the
    loop condition still holds when the fuel is spent. *)
Fixpoint chunk_loop (fuel : nat) (text : str) (chunk_size overlap : Z)
    (st : Z * list str) : option (list str) :=
  if fst st <? len text then
    match fuel with
    | O => None
    | S fuel' =>
        chunk_loop fuel' text chunk_size overlap
          (chunk_step text chunk_size overlap st)
    end
  else Some (snd st).

Definition chunk_text_fuel (fuel : nat) (text : str) (chunk_size overlap : Z)
  : option (list str) :=
  match text with
  | [] => Some []
  | _ => chunk_loop fuel text chunk_size overlap (0, [])
  end.

(** [chunk_text] with as many iterations as the text has characters, which
    is enough whenever the cursor advances. *)
Definition chunk_text (text : str) (chunk_size overlap : Z)
  : option (list str) :=
  chunk_text_fuel (List.length text) text chunk_size overlap.

End Chunker.

(* ===================================================================== *)
(** * Exceptions and stateful computations *)
(* ===================================================================== *)

Definition bytes := list Byte.byte.

Inductive exn :=
| HTTPException (status_code : Z) (detail : str)
| RuntimeError (msg : str)
| ValueError (msg : str)
| InvalidId (oid : str)
| Exception (msg : str).

(** [str(e)] for the exceptions whose text the handlers format. *)
Definition exn_str (e : exn) : str :=
  match e with
  | HTTPException _ detail => detail
  | RuntimeError msg | ValueError msg | Exception msg => msg
  | InvalidId oid => oid
  end.

Inductive outcome (A : Type) :=
| Ok (a : A)
| Raise (e : exn).
Arguments Ok {A} a.
Arguments Raise {A} e.

(** [st -> (result, st')]: writes made before an exception stay in the
    state, as they do in the stores. *)
Definition M (S A : Type) : Type := S -> outcome A * S.

Definition ret {S A} (a : A) : M S A := fun st => (Ok a, st).

Definition bind {S A B} (c : M S A) (k : A -> M S B) : M S B :=
  fun st =>
    match c st with
    | (Ok a, st') => k a st'
    | (Raise e, st') => (Raise e, st')
    end.

Definition raise {S A} (e : exn) : M S A := fun st => (Raise e, st).

(** [try: c except Exception as e: h e] *)
Definition try_except {S A} (c : M S A) (h : exn -> M S A) : M S A :=
  fun st =>
    match c st with
    | (Ok a, st') => (Ok a, st')
    | (Raise e, st') => h e st'
    end.

(** An external call that either raises [Exception msg] or returns. *)
Definition call {S A} (r : str + A) : M S A :=
  match r with
  | inl msg => raise (Exception msg)
  | inr a => ret a
  end.

Declare Scope py_scope.
Delimit Scope py_scope with py.
Notation "x <- c ;; k" := (bind c (fun x => k))
  (at level 100, c at next level, right associativity) : py_scope.
Notation "c ;;; k" := (bind c (fun _ => k))
  (at level 100, right associativity) : py_scope.
Local Open Scope py_scope.

(* ===================================================================== *)
(** * Stores  (db/mongo.py and the MongoDB driver) *)
(* ===================================================================== *)

Module Store.

Record session_rec := {
  s_id : str;
  s_user_id : str;
  s_memori_session_id : str;
  s_title : str;
  s_created_at : N;
  s_updated_at : N
}.

Record message_rec := {
  m_session_id : str;
  m_sender : str;
  m_text : str;
  m_lang : str;
  m_model_used : option str;
  m_created_at : N
}.

Record document_rec := {
  d_id : str;
  d_user_id : str;
  d_filename : str;
  d_mime_type : str;
  d_original_path : str;
  d_created_at : N
}.

Record chunk_rec := {
  c_document_id : str;
  c_user_id : str;
  c_text : str;
  c_chunk_index : Z;
  c_created_at : N
}.

(** A record of the [messages] collection of the Memori database. *)
Record memori_rec := {
  mm_entity_id : str;
  mm_process_id : str;
  mm_session_id : str;
  mm_user_message : str;
  mm_assistant_message : str;
  mm_model_used : str;
  mm_timestamp : N
}.

Inductive role := system | user | assistant.

Record message := { msg_role : role; msg_content : str }.

Inductive backend := Sarvam | Llama.

Inductive mongo_op :=
| SessionsInsertOne | SessionsUpdateOne
| MessagesInsertOne
| DocumentsInsertOne
| ChunksInsertMany | ChunksFind | ChunksCountDocuments
| MemoriMessagesInsertOne.

(** Calls that leave the process, in the order they are made. *)
Inductive event :=
| MongoCall (op : mongo_op)
| LLMCall (b : backend) (messages : list message)
| STTCall (audio : bytes)
| TTSCall (text lang : str).

Record state := {
  sessions : list session_rec;
  messages : list message_rec;
  documents : list document_rec;
  chunks : list chunk_rec;
  memori_messages : list memori_rec;
  next_oid : N;
  log : list event
}.

Definition set_sessions (v : list session_rec) (st : state) : state :=
  {| sessions := v; messages := messages st; documents := documents st;
     chunks := chunks st; memori_messages := memori_messages st;
     next_oid := next_oid st; log := log st |}.

Definition set_messages (v : list message_rec) (st : state) : state :=
  {| sessions := sessions st; messages := v; documents := documents st;
     chunks := chunks st; memori_messages := memori_messages st;
     next_oid := next_oid st; log := log st |}.

Definition set_documents (v : list document_rec) (st : state) : state :=
  {| sessions := sessions st; messages := messages st; documents := v;
     chunks := chunks st; memori_messages := memori_messages st;
     next_oid := next_oid st; log := log st |}.

Definition set_chunks (v : list chunk_rec) (st : state) : state :=
  {| sessions := sessions st; messages := messages st;
     documents := documents st; chunks := v;
     memori_messages := memori_messages st;
     next_oid := next_oid st; log := log st |}.

Definition set_memori_messages (v : list memori_rec) (st : state) : state :=
  {| sessions := sessions st; messages := messages st;
     documents := documents st; chunks := chunks st; memori_messages := v;
     next_oid := next_oid st; log := log st |}.

Definition set_next_oid (v : N) (st : state) : state :=
  {| sessions := sessions st; messages := messages st;
     documents := documents st; chunks := chunks st;
     memori_messages := memori_messages st;
     next_oid := v; log := log st |}.

Definition set_log (v : list event) (st : state) : state :=
  {| sessions := sessions st; messages := messages st;
     documents := documents st; chunks := chunks st;
     memori_messages := memori_messages st;
     next_oid := next_oid st; log := v |}.

(** The updates the driver calls make; each mentions the state once. *)
Definition log_event (e : event) (st : state) : state :=
  set_log (log st ++ [e]) st.

Definition bump_oid (st : state) : state :=
  set_next_oid (next_oid st + 1)%N st.

Definition bump_oid_by (k : N) (st : state) : state :=
  set_next_oid (next_oid st + k)%N st.

Definition add_session (r : session_rec) (st : state) : state :=
  set_sessions (sessions st ++ [r]) st.

Definition add_message (r : message_rec) (st : state) : state :=
  set_messages (messages st ++ [r]) st.

Definition add_document (r : document_rec) (st : state) : state :=
  set_documents (documents st ++ [r]) st.

Definition add_chunks (rs : list chunk_rec) (st : state) : state :=
  set_chunks (chunks st ++ rs) st.

Definition add_memori_message (r : memori_rec) (st : state) : state :=
  set_memori_messages (memori_messages st ++ [r]) st.

(** Everything the handlers reach outside the repository: injected
    singletons, model runtimes, the language detector, the store's failure
    behaviour, the file system, the clock and the settings. A failing call
    is [inl msg] (or [Some msg] for a fault): it raises an exception whose
    text is [msg]. *)
Record World := {
  memori_wrapper_set : bool;
  llm_client_set : bool;
  mongo_db_set : bool;
  detect : str -> option str;
  sarvam_chat : list message -> str + str;
  llama_chat : list message -> str + str;
  whisper_service : option str;
  transcribe_audio : bytes -> str + (str * str);
  tts_service : option str;
  synthesize_speech : str -> str -> str + bytes;
  mongo_fault : mongo_op -> option str;
  pcre_other : str -> str + (str -> bool);
  utcnow : N;
  b64encode : bytes -> str;
  strftime : N -> str;
  parse_file : str -> bytes -> str + str;
  mkdir_fault : option str;
  path_refused : str -> option str;
  write_fault : str -> bytes -> option str;
  unlink_fault : str -> option str;
  MAX_CHUNK_SIZE : Z
}.

Definition emit (e : event) : M state unit :=
  fun st => (Ok tt, log_event e st).

(** A driver call: logged, then failing if the store does. *)
Definition mongo_call (w : World) (op : mongo_op) : M state unit :=
  emit (MongoCall op) ;;;
  match mongo_fault w op with
  | Some msg => raise (Exception msg)
  | None => ret tt
  end.

(** [MongoDB.get_collection]: only the handle, no round trip. *)
Definition get_collection (w : World) : M state unit :=
  if mongo_db_set w then ret tt
  else raise (RuntimeError
                (lit "Database not initialized. Call connect() first.")).

(** ** ObjectIds *)

Definition hex_digit (d : N) : codepoint :=
  (if d <? 10 then 48 + d else 87 + d)%N.

Fixpoint hex_digits (k : nat) (n : N) : str :=
  match k with
  | O => []
  | S k' => hex_digits k' (n / 16)%N ++ [hex_digit (n mod 16)%N]
  end.

(** [str(oid)] of the [n]-th ObjectId generated. *)
Definition oid_str (n : N) : str := hex_digits 24 n.

Definition is_hex (c : codepoint) : bool :=
  ((48 <=? c) && (c <=? 57) || (97 <=? c) && (c <=? 102) ||
   (65 <=? c) && (c <=? 70))%N.

(** The whitespace [bytes.fromhex] skips: ASCII space, tab, line feed,
    vertical tab, form feed and carriage return. *)
Definition is_ascii_space (c : codepoint) : bool :=
  ((9 <=? c) && (c <=? 13) || (c =? 32))%N.

(** [bytes.fromhex(s)], the result given by its hexadecimal digits in lower
    case (two per byte): whitespace between bytes is skipped, the two digits
    of a byte stand together, anything else is a [ValueError] ([None]). *)
Fixpoint fromhex (s : str) : option str :=
  match s with
  | [] => Some []
  | c :: s' =>
      if is_ascii_space c then fromhex s'
      else
        match s' with
        | [] => None
        | d :: s'' =>
            if is_hex c && is_hex d
            then match fromhex s'' with
                 | Some r => Some (ascii_lower_cp c :: ascii_lower_cp d :: r)
                 | None => None
                 end
            else None
        end
  end.

(** [ObjectId(s)] for a string, as [bson] validates it: a string of 24
    characters that [bytes.fromhex] accepts, or [InvalidId]. The id is given
    by the hexadecimal text of its bytes; with whitespace in [s] that text
    is shorter than the 24 digits of an id the store generates. *)
Definition ObjectId_of_str (s : str) : M state str :=
  if Nat.eqb (List.length s) 24
  then match fromhex s with
       | Some digits => ret digits
       | None => raise (InvalidId s)
       end
  else raise (InvalidId s).

(** [ObjectId()] *)
Definition new_ObjectId : M state str :=
  fun st => (Ok (oid_str (next_oid st)), bump_oid st).

(** ** Regular expressions of the store

    The [$regex] operator runs a PCRE pattern. The fragment modelled here is
    an alternation of sequences of literal characters and dots; any other
    metacharacter puts the pattern outside the fragment. *)

Inductive atom := Lit (c : codepoint) | AnyChar.

Definition is_meta (c : codepoint) : bool :=
  existsb (cp_eqb c) (lit "\^$.|?*+()[]{}").

Definition bar : codepoint := 124%N.

(** Splitting at every [|]; [cur] is the alternative being read (reversed). *)
Fixpoint split_bar (cur : str) (p : str) : list str :=
  match p with
  | [] => [rev cur]
  | c :: p' =>
      if cp_eqb c bar then rev cur :: split_bar [] p'
      else split_bar (c :: cur) p'
  end.

Fixpoint parse_alt (p : str) : option (list atom) :=
  match p with
  | [] => Some []
  | c :: p' =>
      match parse_alt p' with
      | None => None
      | Some r =>
          if cp_eqb c 46%N then Some (AnyChar :: r)
          else if is_meta c then None
          else Some (Lit c :: r)
      end
  end.

Fixpoint parse_alts (ps : list str) : option (list (list atom)) :=
  match ps with
  | [] => Some []
  | p :: ps' =>
      match parse_alt p, parse_alts ps' with
      | Some a, Some r => Some (a :: r)
      | _, _ => None
      end
  end.

Definition parse_regex (p : str) : option (list (list atom)) :=
  parse_alts (split_bar [] p).

Definition atom_matches `{CaseTables} (a : atom) (c : codepoint) : bool :=
  match a with
  | Lit k => caseless_eq k c
  | AnyChar => negb (cp_eqb c 10%N)
  end.

(** The sequence matches a prefix of [s]. *)
Fixpoint alt_matches_at `{CaseTables} (alt : list atom) (s : str) : bool :=
  match alt, s with
  | [], _ => true
  | a :: alt', c :: s' => atom_matches a c && alt_matches_at alt' s'
  | _ :: _, [] => false
  end.

(** Unanchored search: the sequence matches at some position of [s]. *)
Fixpoint alt_search `{CaseTables} (alt : list atom) (s : str) : bool :=
  alt_matches_at alt s ||
  match s with
  | [] => false
  | _ :: s' => alt_search alt s'
  end.

Definition regex_search `{CaseTables} (r : list (list atom)) (s : str)
  : bool :=
  existsb (fun alt => alt_search alt s) r.

(** Compiling [{"$regex": p, "$options": "i"}]: inside the fragment the
    matcher above, outside it whatever the engine answers (possibly an
    error for a malformed pattern). *)
Definition regex_compile `{CaseTables} (w : World) (p : str)
  : str + (str -> bool) :=
  match parse_regex p with
  | Some r => inr (regex_search r)
  | None => pcre_other w p
  end.

(** [cursor.limit(n)]: [0] means no limit, a negative [n] limits to [|n|]. *)
Definition cursor_limit {A} (n : Z) (l : list A) : list A :=
  if n =? 0 then l else firstn (Z.to_nat (Z.abs n)) l.

(** [chunks_col.find({"user_id": u, "text": {"$regex": p, "$options": "i"}})
    .limit(n)], iterated to the end. *)
Definition chunks_find `{CaseTables} (w : World) (user_id pattern : str)
    (limit : Z) : M state (list chunk_rec) :=
  mongo_call w ChunksFind ;;;
  m <- call (regex_compile w pattern) ;;
  fun st =>
    (Ok (cursor_limit limit
           (filter (fun c => str_eqb (c_user_id c) user_id && m (c_text c))
                   (chunks st))), st).

(** [insert_one]: the driver assigns a fresh [_id]. *)
Definition sessions_insert_one (w : World)
    (mk : str -> session_rec) : M state str :=
  mongo_call w SessionsInsertOne ;;;
  id <- new_ObjectId ;;
  fun st => (Ok id, add_session (mk id) st).

Definition messages_insert_one (w : World) (r : message_rec)
  : M state unit :=
  mongo_call w MessagesInsertOne ;;;
  _ <- new_ObjectId ;;
  fun st => (Ok tt, add_message r st).

Definition documents_insert_one (w : World)
    (mk : str -> document_rec) : M state str :=
  mongo_call w DocumentsInsertOne ;;;
  id <- new_ObjectId ;;
  fun st => (Ok id, add_document (mk id) st).

(** [insert_many]: one fresh [_id] per record, one round trip. *)
Definition chunks_insert_many (w : World) (rs : list chunk_rec)
  : M state unit :=
  mongo_call w ChunksInsertMany ;;;
  fun st =>
    (Ok tt, add_chunks rs (bump_oid_by (N.of_nat (List.length rs)) st)).

Definition chunks_count_documents (w : World) (document_id : str)
  : M state Z :=
  mongo_call w ChunksCountDocuments ;;;
  fun st =>
    (Ok (len (filter (fun c => str_eqb (c_document_id c) document_id)
                     (chunks st))), st).

Definition memori_messages_insert_one (w : World) (r : memori_rec)
  : M state unit :=
  mongo_call w MemoriMessagesInsertOne ;;;
  _ <- new_ObjectId ;;
  fun st => (Ok tt, add_memori_message r st).

Fixpoint update_first (id : str) (now : N) (l : list session_rec)
  : list session_rec :=
  match l with
  | [] => []
  | s :: l' =>
      if str_eqb (s_id s) id
      then {| s_id := s_id s; s_user_id := s_user_id s;
              s_memori_session_id := s_memori_session_id s;
              s_title := s_title s; s_created_at := s_created_at s;
              s_updated_at := now |} :: l'
      else s :: update_first id now l'
  end.

Definition touch_session (id : str) (now : N) (st : state) : state :=
  set_sessions (update_first id now (sessions st)) st.

(** [sessions_col.update_one({"_id": id}, {"$set": {"updated_at": now}})] *)
Definition sessions_update_one (w : World) (id : str) (now : N)
  : M state unit :=
  mongo_call w SessionsUpdateOne ;;;
  fun st => (Ok tt, touch_session id now st).

End Store.

Import Store.

Definition nl : str := [10%N].

(* ===================================================================== *)
(** * Document store  (services/documents/document_store.py) *)
(* ===================================================================== *)

Module DocumentStore.

Section WithWorld.
Context `{CaseTables} (w : World).

(** [get_relevant_chunks(user_id, query, limit)] *)
Definition get_relevant_chunks (user_id query : str) (limit : Z)
  : M state (list str) :=
  get_collection w ;;;
  let keywords :=
    map lower (filter (fun word => len word >? 3) (split query)) in
  match keywords with
  | [] => ret []
  | _ =>
      let pattern := join [bar] (take 5 keywords) in
      docs <- chunks_find w user_id pattern limit ;;
      ret (map c_text docs)
  end.

Record UploadFile := {
  filename : str;
  content_type : option str;
  file_content : bytes
}.

(** The [for idx, chunk_text_content in enumerate(chunks)] loop, from index
    [idx] on. *)
Fixpoint chunk_records_from (document_id user_id : str) (now : N) (idx : Z)
    (chunks : list str) : list chunk_rec :=
  match chunks with
  | [] => []
  | chunk_text_content :: rest =>
      {| c_document_id := document_id;
         c_user_id := user_id;
         c_text := chunk_text_content;
         c_chunk_index := idx;
         c_created_at := now |}
      :: chunk_records_from document_id user_id now (idx + 1) rest
  end.

(** The part of [save_uploaded_file] after chunking: the document record,
    then its chunk records in one batch. *)
Definition store_document (user_id : str) (file : UploadFile)
    (file_path : str) (chunks : list str) : M state str :=
  get_collection w ;;;
  document_id <-
    documents_insert_one w (fun id =>
      {| d_id := id;
         d_user_id := user_id;
         d_filename := filename file;
         d_mime_type :=
           match content_type file with
           | Some (c :: t) => c :: t
           | _ => lit "application/octet-stream"
           end;
         d_original_path := file_path;
         d_created_at := utcnow w |}) ;;
  get_collection w ;;;
  let chunk_records :=
    chunk_records_from document_id user_id (utcnow w) 0 chunks in
  match chunk_records with
  | [] => ret tt
  | _ => chunks_insert_many w chunk_records
  end ;;;
  ret document_id.

(** [uploads_dir.mkdir(parents=True, exist_ok=True)], then
    [open(file_path, 'wb')] and [f.write(content)]; [Some e]: [e] is raised.
    A failing [mkdir] raises [OSError]. [open] first turns the name into a
    path of the file system: a name the file system encoding cannot express
    ([path_refused]) and, after it, a name with a NUL character are refused
    with [ValueError] (the second with the text POSIX systems give). Any
    other failure of [open] or [write] is an [OSError]. *)
Definition write_upload (file_path : str) (content : bytes) : option exn :=
  match mkdir_fault w with
  | Some msg => Some (Exception msg)
  | None =>
      match path_refused w file_path with
      | Some msg => Some (ValueError msg)
      | None =>
          if existsb (cp_eqb 0%N) file_path
          then Some (ValueError (lit "embedded null byte"))
          else
            match write_fault w file_path content with
            | Some msg => Some (Exception msg)
            | None => None
            end
      end
  end.

(** [save_uploaded_file(user_id, file)]. Paths are taken relative to the
    upload directory; the file system is reached through the faults of the
    world, and [parse_file] reads back the content written. [None]: the
    chunking loop did not finish. *)
Definition save_uploaded_file (user_id : str) (file : UploadFile)
  : state -> option (outcome str * state) :=
  fun st =>
    let timestamp := strftime w (utcnow w) in
    let safe_filename :=
      user_id ++ lit "_" ++ timestamp ++ lit "_" ++ filename file in
    match write_upload safe_filename (file_content file) with
    | Some e => Some (Raise e, st)
    | None =>
        match parse_file w safe_filename (file_content file) with
        | inl msg =>
            match unlink_fault w safe_filename with
            | Some failure => Some (Raise (Exception failure), st)
            | None =>
                Some (Raise (ValueError
                               (lit "Failed to parse file: " ++ msg)), st)
            end
        | inr text =>
            match Chunker.chunk_text text (MAX_CHUNK_SIZE w) 128 with
            | None => None
            | Some chunks =>
                Some (store_document user_id file safe_filename chunks st)
            end
        end
    end.

End WithWorld.

End DocumentStore.

(* ===================================================================== *)
(** * Model gateway  (services/llm/local_llm_client.py) *)
(* ===================================================================== *)

Module LLM.

Definition SYSTEM_PROMPT : str :=
  lit "You are Drishti AI, a helpful multilingual assistant supporting English and Indian languages (Hindi, Bengali, Marathi, Tamil, Telugu, Gujarati, Kannada, Malayalam, Odia, Punjabi)."
  ++ nl ++ nl ++ lit "Guidelines:" ++ nl
  ++ lit "- Reply in the SAME LANGUAGE as the user unless they explicitly ask you to translate" ++ nl
  ++ lit "- Keep responses concise and TTS-friendly (avoid overly long paragraphs)" ++ nl
  ++ lit "- If the user asks to translate, output ONLY the translated text without explanation" ++ nl
  ++ lit "- Be helpful, accurate, and culturally aware" ++ nl
  ++ lit "- For code or technical topics, provide clear step-by-step explanations".

(** [TRANSLATION_PROMPT_TEMPLATE.format(...)] *)
Definition translation_prompt (source_lang target_lang text : str) : str :=
  lit "Translate the following text from " ++ source_lang ++ lit " to "
  ++ target_lang ++ lit "." ++ nl
  ++ lit "Output ONLY the translated text, nothing else." ++ nl ++ nl
  ++ lit "Text: " ++ text ++ nl ++ nl ++ lit "Translation:".

Record chat_result := { reply : str; model_used : str }.

Definition backend_reply (w : World) (b : backend)
  : list message -> str + str :=
  match b with
  | Sarvam => sarvam_chat w
  | Llama => llama_chat w
  end.

(** [self.sarvam_client.chat(messages)] / [self.llama_client.chat(messages)] *)
Definition client_chat (w : World) (b : backend) (messages : list message)
  : M state str :=
  emit (LLMCall b messages) ;;;
  call (backend_reply w b messages).

Section WithWorld.
Context `{CaseTables} (w : World).

(** [LocalLLMClient.chat(text, lang, context)] *)
Definition chat (text lang context : str) : M state chat_result :=
  let model_choice := Router.choose_model text lang in
  let system_content :=
    match context with
    | [] => SYSTEM_PROMPT
    | _ => SYSTEM_PROMPT ++ nl ++ nl
           ++ lit "Context from uploaded documents:" ++ nl ++ context
    end in
  let messages :=
    [ {| msg_role := system; msg_content := system_content |};
      {| msg_role := user; msg_content := text |} ] in
  match model_choice with
  | Router.light =>
      reply <- client_chat w Sarvam messages ;;
      ret {| reply := reply; model_used := lit "sarvam-1" |}
  | Router.heavy =>
      reply <- client_chat w Llama messages ;;
      ret {| reply := reply; model_used := lit "llama-3.1-8b" |}
  end.

(** [LocalLLMClient.translate(text, source_lang, target_lang)] *)
Definition translate (text source_lang target_lang : str) : M state str :=
  let prompt := translation_prompt source_lang target_lang text in
  let messages := [ {| msg_role := user; msg_content := prompt |} ] in
  if in_set source_lang Router.INDIC_LANGS
     || in_set target_lang Router.INDIC_LANGS
  then client_chat w Sarvam messages
  else client_chat w Llama messages.

End WithWorld.

End LLM.

(* ===================================================================== *)
(** * Conversation memory  (services/memory/memori_client.py) *)
(* ===================================================================== *)

Module Memori.

Record result := {
  reply : str;
  model_used : str;
  session_id : str
}.

Section WithWorld.
Context `{CaseTables} (w : World).

(** [MemoriWrapper.chat(user_id, session_id, text, lang)]. The calls
    [memori.attribution] and [memori.set_session] only set fields of the
    library object and are left out. *)
Definition chat (user_id session_id text lang : str) : M state result :=
  result <- LLM.chat w text lang [] ;;
  try_except
    (memori_messages_insert_one w
       {| mm_entity_id := user_id;
          mm_process_id := lit "drishti-ai";
          mm_session_id := session_id;
          mm_user_message := text;
          mm_assistant_message := LLM.reply result;
          mm_model_used := LLM.model_used result;
          mm_timestamp := utcnow w |})
    (fun e => ret tt) ;;;
  ret {| reply := LLM.reply result;
         model_used := LLM.model_used result;
         session_id := session_id |}.

End WithWorld.

End Memori.

(* ===================================================================== *)
(** * Handlers  (api/routes_chat.py, api/routes_translate.py) *)
(* ===================================================================== *)

Module Routes.

Record TextChatRequest := {
  rq_user_id : str;
  rq_session_id : option str;
  rq_text : str;
  rq_lang : str
}.

Record TextChatResponse := {
  user_text : str;
  assistant_text : str;
  lang : str;
  model_used : str;
  session_id : str
}.

Record AudioChatResponse := {
  a_user_text : str;
  a_assistant_text : str;
  a_lang : str;
  a_model_used : str;
  a_session_id : str;
  a_audio_format : str;
  a_audio_base64 : str
}.

Record TranslationRequest := {
  tr_text : str;
  tr_source_lang : str;
  tr_target_lang : str;
  tr_tts : bool
}.

Record TranslationResponse := {
  input_text : str;
  translated_text : str;
  source_lang : str;
  target_lang : str;
  audio_base64 : option str
}.

(** [s[:50] + ("..." if len(s) > 50 else "")] *)
Definition title_of (s : str) : str :=
  take 50 s ++ (if len s >? 50 then lit "..." else []).

Section WithWorld.
Context `{CaseTables} (w : World).

(** The "get or create session" block shared by both chat handlers. *)
Definition get_or_create_session (user_id : str) (session_id : option str)
    (text : str) : M state str :=
  match session_id with
  | Some (c :: s) => ret (c :: s)
  | _ =>
      get_collection w ;;;
      memori_session_id <- new_ObjectId ;;
      sessions_insert_one w (fun id =>
        {| s_id := id;
           s_user_id := user_id;
           s_memori_session_id := memori_session_id;
           s_title := title_of text;
           s_created_at := utcnow w;
           s_updated_at := utcnow w |})
  end.

(** The "save messages" and "update session" blocks shared by both chat
    handlers. *)
Definition save_messages (session_id user_text lang : str)
    (result : Memori.result) : M state unit :=
  get_collection w ;;;
  messages_insert_one w
    {| m_session_id := session_id;
       m_sender := lit "user";
       m_text := user_text;
       m_lang := lang;
       m_model_used := None;
       m_created_at := utcnow w |} ;;;
  messages_insert_one w
    {| m_session_id := session_id;
       m_sender := lit "assistant";
       m_text := Memori.reply result;
       m_lang := lang;
       m_model_used := Some (Memori.model_used result);
       m_created_at := utcnow w |} ;;;
  get_collection w ;;;
  oid <- ObjectId_of_str session_id ;;
  sessions_update_one w oid (utcnow w).

(** [POST /chat/text] *)
Definition chat_text (request : TextChatRequest) : M state TextChatResponse :=
  if negb (memori_wrapper_set w)
  then raise (HTTPException 500 (lit "Memori not initialized"))
  else
    lang <-
      (if str_eqb (rq_lang request) (lit "auto")
       then match detect w (rq_text request) with
            | Some l => ret l
            | None => ret (lit "en")
            end
       else ret (rq_lang request)) ;;
    session_id <-
      get_or_create_session (rq_user_id request) (rq_session_id request)
        (rq_text request) ;;
    chunks <-
      DocumentStore.get_relevant_chunks w (rq_user_id request)
        (rq_text request) 5 ;;
    let context :=
      match chunks with [] => [] | _ => join (nl ++ nl) chunks end in
    let text_with_context :=
      match context with
      | [] => rq_text request
      | _ => rq_text request ++ nl ++ nl
             ++ lit "[Context from documents: " ++ context ++ lit "]"
      end in
    result <-
      Memori.chat w (rq_user_id request) session_id text_with_context lang ;;
    save_messages session_id (rq_text request) lang result ;;;
    ret {| user_text := rq_text request;
           assistant_text := Memori.reply result;
           lang := lang;
           model_used := Memori.model_used result;
           session_id := session_id |}.

(** [POST /chat/audio] *)
Definition chat_audio (user_id : str) (session_id : option str)
    (audio : bytes) : M state AudioChatResponse :=
  if negb (memori_wrapper_set w)
  then raise (HTTPException 500 (lit "Memori not initialized"))
  else
    match whisper_service w with
    | Some msg => raise (Exception msg)
    | None => ret tt
    end ;;;
    stt_result <-
      try_except
        (emit (STTCall audio) ;;; call (transcribe_audio w audio))
        (fun e => raise (HTTPException 400 (lit "STT error: " ++ exn_str e))) ;;
    let user_text := fst stt_result in
    let lang := snd stt_result in
    session_id <- get_or_create_session user_id session_id user_text ;;
    chunks <- DocumentStore.get_relevant_chunks w user_id user_text 5 ;;
    let context :=
      match chunks with [] => [] | _ => join (nl ++ nl) chunks end in
    let text_with_context :=
      match context with
      | [] => user_text
      | _ => user_text ++ nl ++ nl ++ lit "[Context: " ++ context ++ lit "]"
      end in
    result <- Memori.chat w user_id session_id text_with_context lang ;;
    let assistant_text := Memori.reply result in
    match tts_service w with
    | Some msg => raise (Exception msg)
    | None => ret tt
    end ;;;
    audio_base64 <-
      try_except
        (emit (TTSCall assistant_text lang) ;;;
         audio_bytes <- call (synthesize_speech w assistant_text lang) ;;
         ret (b64encode w audio_bytes))
        (fun e => raise (HTTPException 500 (lit "TTS error: " ++ exn_str e))) ;;
    save_messages session_id user_text lang result ;;;
    ret {| a_user_text := user_text;
           a_assistant_text := assistant_text;
           a_lang := lang;
           a_model_used := Memori.model_used result;
           a_session_id := session_id;
           a_audio_format := lit "wav";
           a_audio_base64 := audio_base64 |}.

(** [POST /translate] *)
Definition translate_text (request : TranslationRequest)
  : M state TranslationResponse :=
  if negb (llm_client_set w)
  then raise (HTTPException 500 (lit "LLM client not initialized"))
  else
    translated_text <-
      try_except
        (LLM.translate w (tr_text request) (tr_source_lang request)
           (tr_target_lang request))
        (fun e => raise (HTTPException 500
                           (lit "Translation failed: " ++ exn_str e))) ;;
    audio_base64 <-
      (if tr_tts request
       then
         try_except
           (match tts_service w with
            | Some msg => raise (Exception msg)
            | None => ret tt
            end ;;;
            emit (TTSCall translated_text (tr_target_lang request)) ;;;
            audio_bytes <-
              call (synthesize_speech w translated_text
                      (tr_target_lang request)) ;;
            ret (Some (b64encode w audio_bytes)))
           (fun e => ret None)
       else ret None) ;;
    ret {| input_text := tr_text request;
           translated_text := translated_text;
           source_lang := tr_source_lang request;
           target_lang := tr_target_lang request;
           audio_base64 := audio_base64 |}.

End WithWorld.

End Routes.

(* ===================================================================== *)
(** * Observations on a turn *)
(* ===================================================================== *)

Module Trace.

Definition is_inl {A B} (r : A + B) : bool :=
  match r with inl _ => true | inr _ => false end.

Definition is_some {A} (r : option A) : bool :=
  match r with Some _ => true | None => false end.

(** The state a turn starts in, with an empty call log: afterwards the log
    holds the calls of this turn only. *)
Definition turn_start (st : state) : state := set_log [] st.

(** The name a backend is reported under in [model_used]. *)
Definition model_name (b : backend) : str :=
  match b with
  | Sarvam => lit "sarvam-1"
  | Llama => lit "llama-3.1-8b"
  end.

Definition backend_of (c : Router.model_choice) : backend :=
  match c with
  | Router.light => Sarvam
  | Router.heavy => Llama
  end.

(** Some model backend call of the log failed. *)
Definition gateway_failed (w : World) (l : list event) : bool :=
  existsb (fun e =>
             match e with
             | LLMCall b messages => is_inl (LLM.backend_reply w b messages)
             | _ => false
             end) l.

(** Some synthesis call of the log failed. *)
Definition tts_failed (w : World) (l : list event) : bool :=
  existsb (fun e =>
             match e with
             | TTSCall text lang => is_inl (synthesize_speech w text lang)
             | _ => false
             end) l.

(** Some transcription call of the log succeeded. *)
Definition stt_succeeded (w : World) (l : list event) : bool :=
  existsb (fun e =>
             match e with
             | STTCall audio => negb (is_inl (transcribe_audio w audio))
             | _ => false
             end) l.

(** Some model backend call of the log succeeded. *)
Definition gateway_succeeded (w : World) (l : list event) : bool :=
  existsb (fun e =>
             match e with
             | LLMCall b messages =>
                 negb (is_inl (LLM.backend_reply w b messages))
             | _ => false
             end) l.

(** The chunk lookup was issued and the store failed it. *)
Definition retrieval_failed (w : World) (l : list event) : bool :=
  existsb (fun e =>
             match e with
             | MongoCall ChunksFind => is_some (mongo_fault w ChunksFind)
             | _ => false
             end) l.

(** Some model backend was called. *)
Definition llm_called (l : list event) : bool :=
  existsb (fun e =>
             match e with
             | LLMCall _ _ => true
             | _ => false
             end) l.

(** [kw] occurs in [text] as a contiguous run of characters, compared
    without regard to case. *)
Definition CaselessSubstring `{CaseTables} (kw text : str) : Prop :=
  exists pre mid post,
    text = pre ++ mid ++ post /\
    Forall2 (fun a b => caseless_eq a b = true) kw mid.

(** No character of [k] is a regular-expression metacharacter. *)
Definition plain (k : str) : bool := forallb (fun c => negb (is_meta c)) k.

(** The keywords [get_relevant_chunks] extracts from a query. *)
Definition keywords_of `{CaseTables} (query : str) : list str :=
  map lower (filter (fun word => len word >? 3) (split query)).

Definition set_lang (l : str) (r : Routes.TextChatRequest)
  : Routes.TextChatRequest :=
  {| Routes.rq_user_id := Routes.rq_user_id r;
     Routes.rq_session_id := Routes.rq_session_id r;
     Routes.rq_text := Routes.rq_text r;
     Routes.rq_lang := l |}.

End Trace.

(* ===================================================================== *)
(** * Sample worlds and inputs *)
(* ===================================================================== *)

Module Samples.

(** A world in which everything is up; the arguments choose how the heavy
    backend, the synthesiser, the store and the language detector behave. *)
Definition world (llama : list message -> str + str)
    (synth : str -> str -> str + bytes)
    (fault : mongo_op -> option str)
    (det : str -> option str) : World :=
  {| memori_wrapper_set := true;
     llm_client_set := true;
     mongo_db_set := true;
     detect := det;
     sarvam_chat := fun _ => inr (lit "namaste");
     llama_chat := llama;
     whisper_service := None;
     transcribe_audio := fun _ => inr (lit "hello there", lit "en");
     tts_service := None;
     synthesize_speech := synth;
     mongo_fault := fault;
     pcre_other := fun _ => inl (lit "pattern not modelled");
     utcnow := 0%N;
     b64encode := fun _ => lit "UklGRg==";
     strftime := fun _ => lit "20240101_000000";
     parse_file := fun _ _ => inr (lit "Short text");
     mkdir_fault := None;
     path_refused := fun _ => None;
     write_fault := fun _ _ => None;
     unlink_fault := fun _ => None;
     MAX_CHUNK_SIZE := 1024 |}.

Definition llama_up : list message -> str + str :=
  fun _ => inr (lit "hello").
Definition llama_down : list message -> str + str :=
  fun _ => inl (lit "Failed to connect to Ollama").
Definition synth_up : str -> str -> str + bytes := fun _ _ => inr [].
Definition synth_down : str -> str -> str + bytes :=
  fun _ _ => inl (lit "synthesis failed").
Definition no_fault : mongo_op -> option str := fun _ => None.
Definition find_fault : mongo_op -> option str :=
  fun op => match op with
            | ChunksFind => Some (lit "store unreachable")
            | _ => None
            end.
Definition detect_en : str -> option str := fun _ => Some (lit "en").
Definition detect_fails : str -> option str := fun _ => None.

Definition world_ok : World := world llama_up synth_up no_fault detect_en.

Definition world_llama_down : World :=
  world llama_down synth_up no_fault detect_en.
Definition world_tts_down : World :=
  world llama_up synth_down no_fault detect_en.
Definition world_find_down : World :=
  world llama_up synth_up find_fault detect_en.
Definition world_detect_fails : World :=
  world llama_up synth_up no_fault detect_fails.

Definition empty_state : state :=
  {| sessions := []; messages := []; documents := []; chunks := [];
     memori_messages := []; next_oid := 0%N; log := [] |}.

Definition a_session : str := lit "65f0c0ffee65f0c0ffee0001".

(** The Hindi greeting of the router's unit test, as code points. *)
Definition namaste : str := [2344; 2350; 2360; 2381; 2340; 2375]%N.

Definition aaaa : str := lit "aaaa".

Definition request (text lang : str) : Routes.TextChatRequest :=
  {| Routes.rq_user_id := lit "u1";
     Routes.rq_session_id := Some a_session;
     Routes.rq_text := text;
     Routes.rq_lang := lang |}.

Definition chunk_of (owner text : str) : chunk_rec :=
  {| c_document_id := oid_str 7;
     c_user_id := owner;
     c_text := text;
     c_chunk_index := 0;
     c_created_at := 0%N |}.

Definition state_with_chunks (cs : list chunk_rec) : state :=
  set_chunks cs empty_state.

(** A stored chunk of user [u1] that shares a word with the greeting and
    mentions code. *)
Definition greeting_chunk : chunk_rec :=
  chunk_of (lit "u1") (namaste ++ lit " code").

Definition hallo_chunk : chunk_rec := chunk_of (lit "u1") (lit "hallo world").
Definition hello_chunk : chunk_rec := chunk_of (lit "u1") (lit "Hello there").
Definition other_chunk : chunk_rec := chunk_of (lit "u2") (lit "hello you").

Definition an_upload : DocumentStore.UploadFile :=
  {| DocumentStore.filename := lit "notes.txt";
     DocumentStore.content_type := Some (lit "text/plain");
     DocumentStore.file_content := [] |}.

Definition TranslationRequest_tts : Routes.TranslationRequest :=
  {| Routes.tr_text := lit "Hello";
     Routes.tr_source_lang := lit "en";
     Routes.tr_target_lang := lit "hi";
     Routes.tr_tts := true |}.

End Samples.

(* ===================================================================== *)
(** * Prompt of the light backend  (services/llm/sarvam_client.py) *)
(* ===================================================================== *)

Module Sarvam.

(** A message as the client receives it: a dict whose ["role"] and
    ["content"] keys may be missing. *)
Record dict_message := {
  dm_role : option str;
  dm_content : option str
}.

(** [d.get(key, default)] *)
Definition get_or (v : option str) (default : str) : str :=
  match v with
  | Some x => x
  | None => default
  end.

(** The [for msg in messages] loop of [_build_prompt], appending to
    [parts]. *)
Fixpoint collect_parts (parts : list str) (messages : list dict_message)
  : list str :=
  match messages with
  | [] => parts
  | msg :: rest =>
      let role := get_or (dm_role msg) (lit "user") in
      let content := get_or (dm_content msg) [] in
      if str_eqb role (lit "system")
      then collect_parts (parts ++ [lit "System: " ++ content]) rest
      else if str_eqb role (lit "user")
      then collect_parts (parts ++ [lit "User: " ++ content]) rest
      else if str_eqb role (lit "assistant")
      then collect_parts (parts ++ [lit "Assistant: " ++ content]) rest
      else collect_parts parts rest
  end.

(** [SarvamClient._build_prompt(messages)] *)
Definition build_prompt (messages : list dict_message) : str :=
  let parts := collect_parts [] messages in
  join (nl ++ nl) (parts ++ [lit "Assistant:"]).

Definition role_name (r : role) : str :=
  match r with
  | system => lit "system"
  | user => lit "user"
  | assistant => lit "assistant"
  end.

(** The dict the gateway builds for a message. *)
Definition to_dict (m : message) : dict_message :=
  {| dm_role := Some (role_name (msg_role m));
     dm_content := Some (msg_content m) |}.

(** The role is one of the three the prompt renders. *)
Definition known_role (msg : dict_message) : bool :=
  let role := get_or (dm_role msg) (lit "user") in
  str_eqb role (lit "system") || str_eqb role (lit "user")
  || str_eqb role (lit "assistant").

End Sarvam.

(* ===================================================================== *)
(** * Upload handler  (api/routes_files.py) *)
(* ===================================================================== *)

Module Files.

Record UploadResponse := {
  up_document_id : str;
  up_filename : str;
  up_chunks : Z
}.

(** The two [except] clauses of [upload_file]. *)
Definition upload_error (e : exn) : exn :=
  match e with
  | ValueError msg => HTTPException 400 msg
  | _ => HTTPException 500 (lit "Upload failed: " ++ exn_str e)
  end.

(** [POST /files/upload]. [None]: the chunking loop did not finish. *)
Definition upload_file (w : World) (user_id : str)
    (file : DocumentStore.UploadFile)
  : state -> option (outcome UploadResponse * state) :=
  fun st =>
    match DocumentStore.save_uploaded_file w user_id file st with
    | None => None
    | Some (Raise e, st1) => Some (Raise (upload_error e), st1)
    | Some (Ok document_id, st1) =>
        Some
          (try_except
             (get_collection w ;;;
              chunk_count <- chunks_count_documents w document_id ;;
              ret {| up_document_id := document_id;
                     up_filename := DocumentStore.filename file;
                     up_chunks := chunk_count |})
             (fun e => raise (upload_error e)) st1)
    end.

End Files.

(* ===================================================================== *)
(** * Further observations and sample inputs *)
(* ===================================================================== *)

Module Observe.

(** The language a text request is answered in. *)
Definition resolved_lang (w : World) (request : Routes.TextChatRequest)
  : str :=
  if str_eqb (Routes.rq_lang request) (lit "auto")
  then match detect w (Routes.rq_text request) with
       | Some l => l
       | None => lit "en"
       end
  else Routes.rq_lang request.

(** The chunk lookup was issued. *)
Definition store_searched (l : list event) : bool :=
  existsb (fun e =>
             match e with
             | MongoCall ChunksFind => true
             | _ => false
             end) l.

(** A synthesis call was made. *)
Definition tts_called (l : list event) : bool :=
  existsb (fun e =>
             match e with
             | TTSCall _ _ => true
             | _ => false
             end) l.

(** Everything of the state but the call log and the id counter. *)
Definition same_collections (a b : state) : Prop :=
  sessions a = sessions b /\ messages a = messages b /\
  documents a = documents b /\ chunks a = chunks b /\
  memori_messages a = memori_messages b.

Definition user_message (w : World) (session_id text lang : str)
  : message_rec :=
  {| m_session_id := session_id;
     m_sender := lit "user";
     m_text := text;
     m_lang := lang;
     m_model_used := None;
     m_created_at := utcnow w |}.

Definition assistant_message (w : World)
    (session_id text lang model_used : str) : message_rec :=
  {| m_session_id := session_id;
     m_sender := lit "assistant";
     m_text := text;
     m_lang := lang;
     m_model_used := Some model_used;
     m_created_at := utcnow w |}.

Definition world_memori_down : World :=
  Samples.world Samples.llama_up Samples.synth_up
    (fun op => match op with
               | MemoriMessagesInsertOne => Some (lit "memori unreachable")
               | _ => None
               end)
    Samples.detect_en.

Definition world_stt_down : World :=
  {| memori_wrapper_set := true;
     llm_client_set := true;
     mongo_db_set := true;
     detect := Samples.detect_en;
     sarvam_chat := fun _ => inr (lit "namaste");
     llama_chat := Samples.llama_up;
     whisper_service := None;
     transcribe_audio := fun _ => inl (lit "Failed to load audio");
     tts_service := None;
     synthesize_speech := Samples.synth_up;
     mongo_fault := Samples.no_fault;
     pcre_other := fun _ => inl (lit "pattern not modelled");
     utcnow := 0%N;
     b64encode := fun _ => lit "UklGRg==";
     strftime := fun _ => lit "20240101_000000";
     parse_file := fun _ _ => inr (lit "Short text");
     mkdir_fault := None;
     path_refused := fun _ => None;
     write_fault := fun _ _ => None;
     unlink_fault := fun _ => None;
     MAX_CHUNK_SIZE := 1024 |}.

Definition world_parse_fails : World :=
  {| memori_wrapper_set := true;
     llm_client_set := true;
     mongo_db_set := true;
     detect := Samples.detect_en;
     sarvam_chat := fun _ => inr (lit "namaste");
     llama_chat := Samples.llama_up;
     whisper_service := None;
     transcribe_audio := fun _ => inr (lit "hello there", lit "en");
     tts_service := None;
     synthesize_speech := Samples.synth_up;
     mongo_fault := Samples.no_fault;
     pcre_other := fun _ => inl (lit "pattern not modelled");
     utcnow := 0%N;
     b64encode := fun _ => lit "UklGRg==";
     strftime := fun _ => lit "20240101_000000";
     parse_file := fun _ _ => inl (lit "Unsupported file type: .exe");
     mkdir_fault := None;
     path_refused := fun _ => None;
     write_fault := fun _ _ => None;
     unlink_fault := fun _ => None;
     MAX_CHUNK_SIZE := 1024 |}.

Definition request_with_session (sid text lang : str)
  : Routes.TextChatRequest :=
  {| Routes.rq_user_id := lit "u1";
     Routes.rq_session_id := Some sid;
     Routes.rq_text := text;
     Routes.rq_lang := lang |}.

Definition request_without_session (text lang : str)
  : Routes.TextChatRequest :=
  {| Routes.rq_user_id := lit "u1";
     Routes.rq_session_id := None;
     Routes.rq_text := text;
     Routes.rq_lang := lang |}.

Definition translation (source target : str) (tts : bool)
  : Routes.TranslationRequest :=
  {| Routes.tr_text := lit "Hello";
     Routes.tr_source_lang := source;
     Routes.tr_target_lang := target;
     Routes.tr_tts := tts |}.

(** The two messages the gateway sends for a routed text. *)
Definition gateway_messages (routed : str) : list message :=
  [ {| msg_role := system; msg_content := LLM.SYSTEM_PROMPT |};
    {| msg_role := user; msg_content := routed |} ].

(** A digit as [str(oid)] writes it: hexadecimal, in lower case. *)
Definition plain_digit (c : codepoint) : Prop :=
  is_hex c = true /\ is_ascii_space c = false /\ ascii_lower_cp c = c.

(** No session id is supplied, or the one supplied is accepted by
    [ObjectId]. *)
Definition session_id_accepted (session_id : option str) : bool :=
  match session_id with
  | Some (c :: s) =>
      Nat.eqb (List.length (c :: s)) 24 && Trace.is_some (fromhex (c :: s))
  | _ => true
  end.

(** [text] matches one of the keywords read as literal characters. *)
Definition mentions `{CaseTables} (keywords : list str) (text : str)
  : bool :=
  existsb (fun k => alt_search (map Lit k) text) keywords.

(** The pattern a query with keywords is searched with. *)
Definition pattern_of `{CaseTables} (query : str) : str :=
  join [bar] (take 5 (Trace.keywords_of query)).

(** The name an upload is written under. *)
Definition upload_path (w : World) (user_id : str)
    (file : DocumentStore.UploadFile) : str :=
  user_id ++ lit "_" ++ strftime w (utcnow w) ++ lit "_"
  ++ DocumentStore.filename file.

(** The record stored for the chunk at position [i] of a document. *)
Definition chunk_record (w : World) (document_id user_id : str) (i : nat)
    (text : str) : chunk_rec :=
  {| c_document_id := document_id;
     c_user_id := user_id;
     c_text := text;
     c_chunk_index := Z.of_nat i;
     c_created_at := utcnow w |}.

(** An upload whose name holds a NUL character. *)
Definition nul_upload : DocumentStore.UploadFile :=
  {| DocumentStore.filename := lit "a" ++ [0%N] ++ lit ".txt";
     DocumentStore.content_type := Some (lit "text/plain");
     DocumentStore.file_content := [] |}.

(** A parsed text of 720 characters: more than one chunk at any chunk size
    the default overlap of 128 allows. *)
Definition long_text : str :=
  List.concat (repeat (lit "Alpha beta gamma delta. ") 30).

Definition world_long_upload : World :=
  {| memori_wrapper_set := true;
     llm_client_set := true;
     mongo_db_set := true;
     detect := Samples.detect_en;
     sarvam_chat := fun _ => inr (lit "namaste");
     llama_chat := Samples.llama_up;
     whisper_service := None;
     transcribe_audio := fun _ => inr (lit "hello there", lit "en");
     tts_service := None;
     synthesize_speech := Samples.synth_up;
     mongo_fault := Samples.no_fault;
     pcre_other := fun _ => inl (lit "pattern not modelled");
     utcnow := 0%N;
     b64encode := fun _ => lit "UklGRg==";
     strftime := fun _ => lit "20240101_000000";
     parse_file := fun _ _ => inr long_text;
     mkdir_fault := None;
     path_refused := fun _ => None;
     write_fault := fun _ _ => None;
     unlink_fault := fun _ => None;
     MAX_CHUNK_SIZE := 300 |}.

(** A world in which the language detector answers Hindi. *)
Definition world_detect_hi : World :=
  Samples.world Samples.llama_up Samples.synth_up Samples.no_fault
    (fun _ => Some (lit "hi")).

End Observe.
(* ===================================================================== *)
(** * Properties of the router *)
(* ===================================================================== *)

Module RouterFacts.
Import Router Samples.

Lemma scan_keywords_existsb (kws : list str) (t : str) :
  scan_keywords kws t =
  if existsb (fun k => contains k t) kws then Some heavy else None.
Proof.
  induction kws as [|k kws IH]; simpl; [reflexivity|].
  destruct (contains k t); simpl; [reflexivity|exact IH].
Qed.

Lemma choose_model_not_indic `{CaseTables} (text lang_code : str) :
  in_set lang_code INDIC_LANGS = false ->
  choose_model text lang_code = heavy.
Proof.
  intros Hl. unfold choose_model. rewrite Hl.
  destruct (len text >? 300); [reflexivity|].
  rewrite scan_keywords_existsb.
  destruct (existsb _ HEAVY_KEYWORDS); reflexivity.
Qed.

(** C4. [choose_model] is the four-rule decision table, first match wins:
    more than 300 characters gives heavy; otherwise a heavy keyword in the
    lowered text gives heavy; otherwise one of the ten Indic language codes
    gives light; otherwise heavy. The four sample decisions of the
    specification follow. *)
Theorem choose_model_decision_table :
  (forall (T : CaseTables) (text lang_code : str),
      choose_model text lang_code = choose_rules text lang_code) /\
  (List.length INDIC_LANGS = 10%nat /\ NoDup INDIC_LANGS) /\
  (forall T : CaseTables,
      choose_model (repeat 97%N 400) (lit "en") = heavy) /\
  (forall T : CaseTables,
      choose_model (lit "Explain this step by step") (lit "en") = heavy) /\
  @choose_model ascii_tables namaste (lit "hi") = light /\
  (forall T : CaseTables, choose_model (lit "Hello") (lit "en") = heavy).
Proof.
  split; [|split; [|split; [|split; [|split]]]].
  - intros T text lang_code. unfold choose_model, choose_rules.
    destruct (len text >? 300) eqn:Hlen; [reflexivity|].
    rewrite scan_keywords_existsb.
    destruct (existsb _ HEAVY_KEYWORDS); [reflexivity|].
    assert ((len text <=? 300) = true) as -> by lia.
    rewrite andb_true_r. reflexivity.
  - split; [reflexivity|].
    repeat (constructor;
            [simpl; intros Hin;
             repeat (destruct Hin as [Hin|Hin]; [discriminate Hin|]);
             exact Hin|]).
    constructor.
  - intros T. reflexivity.
  - intros T. apply choose_model_not_indic. reflexivity.
  - reflexivity.
  - intros T. apply choose_model_not_indic. reflexivity.
Qed.

End RouterFacts.

(* ===================================================================== *)
(** * Properties of the chunker *)
(* ===================================================================== *)

Module ChunkerFacts.
Import Chunker Samples.

Lemma find_break_bound (text : str) (start end_ cs : Z) (seqs : list str)
    (best : Z) :
  Forall (fun q => len q = 2) seqs ->
  (let r := find_break text start end_ cs seqs best in
   r = best \/ start + cs / 2 + 2 < r).
Proof.
  intros Hall. induction Hall as [|q seqs Hq Hall IH]; simpl.
  - left. reflexivity.
  - destruct (rfind text q start end_ >? start + cs / 2) eqn:Hpos.
    + right. lia.
    + exact IH.
Qed.

Lemma boundary_chars_len : Forall (fun q => len q = 2) boundary_chars.
Proof. repeat constructor. Qed.

(** With a small enough overlap one iteration moves the cursor strictly
    forward, and never beyond the end of the text. *)
Lemma chunk_step_advances (text : str) (cs ov start : Z) (chunks : list str) :
  0 < cs -> 0 <= ov -> ov < cs -> ov <= cs / 2 + 2 ->
  start < len text ->
  start < fst (chunk_step text cs ov (start, chunks)) <= len text.
Proof.
  intros Hcs Hov Hlt Hhalf Hstart. unfold chunk_step. cbv zeta.
  destruct (start + cs <? len text) eqn:Hend.
  - pose proof (find_break_bound text start (start + cs) cs boundary_chars
                  (start + cs) boundary_chars_len) as Hb.
    cbv zeta in Hb.
    set (fb := find_break text start (start + cs) cs boundary_chars
                 (start + cs)) in *.
    destruct (fb <? len text) eqn:Hfb; cbn [fst]; lia.
  - rewrite Hend. cbn [fst]. lia.
Qed.

Lemma chunk_loop_enough_fuel (text : str) (cs ov : Z) :
  0 < cs -> 0 <= ov -> ov < cs -> ov <= cs / 2 + 2 ->
  forall (fuel : nat) (st : Z * list str),
    len text - fst st <= Z.of_nat fuel ->
    exists chunks, chunk_loop fuel text cs ov st = Some chunks.
Proof.
  intros Hcs Hov Hlt Hhalf fuel.
  induction fuel as [|fuel IH]; intros [start chunks] Hm;
    cbn [chunk_loop fst snd] in *.
  - destruct (start <? len text) eqn:Hs; [lia|]. eexists; reflexivity.
  - destruct (start <? len text) eqn:Hs; [|eexists; reflexivity].
    apply IH.
    pose proof (chunk_step_advances text cs ov start chunks
                  Hcs Hov Hlt Hhalf ltac:(lia)) as Hadv.
    lia.
Qed.

Lemma chunk_loop_more_fuel (text : str) (cs ov : Z) (fuel extra : nat) :
  forall (st : Z * list str) (r : list str),
    chunk_loop fuel text cs ov st = Some r ->
    chunk_loop (fuel + extra) text cs ov st = Some r.
Proof.
  induction fuel as [|fuel IH]; intros st r; cbn [chunk_loop Nat.add].
  - destruct (fst st <? len text) eqn:Hs; [discriminate|].
    intros Hr. destruct extra; cbn [chunk_loop]; rewrite Hs; exact Hr.
  - destruct (fst st <? len text) eqn:Hs; [|intros Hr; exact Hr].
    apply IH.
Qed.

Lemma chunk_loop_stuck (fuel : nat) :
  forall chunks : list str, chunk_loop fuel aaaa 1 1 (0, chunks) = None.
Proof.
  induction fuel as [|fuel IH]; intros chunks.
  - reflexivity.
  - change (chunk_loop (S fuel) aaaa 1 1 (0, chunks))
      with (chunk_loop fuel aaaa 1 1 (0, chunks ++ [lit "a"])).
    apply IH.
Qed.

(** C5, as stated, fails: with [chunk_size = 1] and [overlap = 1] the cursor
    is put back on [0] after every window, and the loop over ["aaaa"] never
    ends, whatever the number of iterations allowed. *)
Lemma chunk_text_overlap_not_total :
  0 < 1 /\ 0 <= 1 /\
  fst (chunk_step aaaa 1 1 (0, [])) = 0 /\
  ~ exists (fuel : nat) (chunks : list str),
      chunk_text_fuel fuel aaaa 1 1 = Some chunks.
Proof.
  split; [lia|]. split; [lia|]. split; [reflexivity|].
  intros (fuel & chunks & Hrun).
  unfold chunk_text_fuel in Hrun. simpl in Hrun.
  change (chunk_loop fuel aaaa 1 1 (0, []) = Some chunks) in Hrun.
  rewrite chunk_loop_stuck in Hrun. discriminate Hrun.
Qed.

(** With a small enough overlap [chunk_text] returns, and more fuel than
    the text has characters changes nothing. *)
Lemma chunk_text_returns (text : str) (chunk_size overlap : Z) :
  0 < chunk_size -> 0 <= overlap -> overlap < chunk_size ->
  overlap <= chunk_size / 2 + 2 ->
  exists chunks,
    chunk_text text chunk_size overlap = Some chunks /\
    forall fuel, (List.length text <= fuel)%nat ->
      chunk_text_fuel fuel text chunk_size overlap = Some chunks.
Proof.
  intros Hcs Hov Hlt Hhalf. unfold chunk_text, chunk_text_fuel.
  destruct text as [|c text'] eqn:Htext.
  - exists []. split; [reflexivity|]. intros; reflexivity.
  - rewrite <- Htext.
    destruct (chunk_loop_enough_fuel text chunk_size overlap
                Hcs Hov Hlt Hhalf (List.length text) (0, []))
      as [chunks Hrun].
    { unfold len. simpl. lia. }
    exists chunks. split; [exact Hrun|].
    intros fuel Hfuel.
    replace fuel with (List.length text + (fuel - List.length text))%nat
      by lia.
    apply chunk_loop_more_fuel. exact Hrun.
Qed.

(** C5, amended. For [chunk_size > 0] and an overlap with
    [0 <= overlap < chunk_size] and [overlap <= chunk_size // 2 + 2], every
    iteration moves the cursor strictly forward without passing the end of
    the text, so the loop ends within [len(text)] iterations and
    [chunk_text] returns a list of chunks. *)
Theorem chunk_text_total_small_overlap (text : str) (chunk_size overlap : Z) :
  0 < chunk_size -> 0 <= overlap -> overlap < chunk_size ->
  overlap <= chunk_size / 2 + 2 ->
  (exists chunks,
      chunk_text text chunk_size overlap = Some chunks /\
      forall fuel, (List.length text <= fuel)%nat ->
        chunk_text_fuel fuel text chunk_size overlap = Some chunks) /\
  (forall start chunks, 0 <= start < len text ->
      start < fst (chunk_step text chunk_size overlap (start, chunks))
      <= len text).
Proof.
  intros Hcs Hov Hlt Hhalf. split.
  - apply chunk_text_returns; assumption.
  - intros start chunks Hstart.
    apply chunk_step_advances; lia.
Qed.

Lemma chunk_text_total_small_overlap_witness :
  exists chunks,
    chunk_text (lit "Short text") 100 10 = Some chunks /\
    chunks = [lit "Short text"].
Proof.
  destruct (chunk_text_total_small_overlap (lit "Short text") 100 10)
    as [[chunks [Hrun _]] _]; [lia|lia|lia|simpl; lia|].
  exists chunks. split; [exact Hrun|].
  vm_compute in Hrun. injection Hrun as <-. reflexivity.
Defined.

End ChunkerFacts.

(* ===================================================================== *)
(** * Properties of the handlers *)
(* ===================================================================== *)

Module PipelineFacts.
Import Router Trace Samples Routes Observe.

(** ** Symbolic execution of a handler

    The run [c st = (out, st')] is unfolded into its monadic plumbing and
    split on whatever blocks it, head computation first, so that every
    case is one complete path through the handler. *)

Ltac unfold_run :=
  unfold chat_text, chat_audio, translate_text, get_or_create_session,
    save_messages, Memori.chat, LLM.chat, LLM.translate, LLM.client_chat,
    DocumentStore.get_relevant_chunks, DocumentStore.store_document,
    chunks_find, chunks_insert_many, documents_insert_one,
    sessions_insert_one, messages_insert_one, memori_messages_insert_one,
    sessions_update_one, ObjectId_of_str, new_ObjectId, get_collection,
    mongo_call, emit, call, try_except, bind, ret, raise in *.

Ltac applied_match f :=
  lazymatch f with
  | match ?x with _ => _ end => x
  | ?g _ => applied_match g
  end.

Ltac head_scrutinee t :=
  match t with
  | match ?x with _ => _ end => head_scrutinee x
  | ?f _ => let x := applied_match f in head_scrutinee x
  | _ => t
  end.

Ltac split_run H :=
  repeat (cbv beta iota zeta in H;
          lazymatch type of H with
          | ?lhs = _ =>
              let x := head_scrutinee lhs in
              lazymatch x with
              | (_, _) => fail
              | _ => destruct x eqn:?
              end
          end);
  apply pair_equal_spec in H; destruct H as [<- <-].

Lemma existsb_snoc {A} (f : A -> bool) (l : list A) (a : A) :
  existsb f (l ++ [a]) = existsb f l || f a.
Proof. rewrite existsb_app. simpl. rewrite orb_false_r. reflexivity. Qed.

Ltac project_in H :=
  cbn [log messages memori_messages sessions chunks documents next_oid
       set_log set_messages set_sessions set_next_oid set_memori_messages
       set_chunks set_documents
       log_event bump_oid add_session add_message add_memori_message
       add_chunks add_document touch_session turn_start] in H.

Ltac project_state Hf :=
  unfold gateway_failed, tts_failed, retrieval_failed, stt_succeeded,
    gateway_succeeded, llm_called in Hf |- *;
  cbn [log messages memori_messages sessions chunks documents next_oid
       set_log set_messages set_sessions set_next_oid set_memori_messages
       set_chunks set_documents
       log_event bump_oid add_session add_message add_memori_message
       add_chunks add_document touch_session turn_start] in Hf |- *;
  rewrite ?existsb_snoc in Hf; rewrite ?existsb_snoc;
  cbn [existsb orb negb is_inl is_some] in Hf |- *.

(** An observation [Hf] on the log that the path taken contradicts. *)
Ltac off_path Hf :=
  repeat match goal with
         | Hq : LLM.backend_reply _ _ _ = _ |- _ =>
             project_in Hq; rewrite Hq in Hf
         | Hq : mongo_fault _ _ = _ |- _ => rewrite Hq in Hf
         | Hq : synthesize_speech _ _ _ = _ |- _ =>
             project_in Hq; rewrite Hq in Hf
         | Hq : transcribe_audio _ _ = _ |- _ => rewrite Hq in Hf
         end;
  cbn [is_inl is_some orb negb] in Hf; discriminate Hf.

Ltac on_path :=
  repeat match goal with
         | Hq : LLM.backend_reply _ _ _ = _ |- _ => progress project_in Hq
         | Hq : synthesize_speech _ _ _ = _ |- _ => progress project_in Hq
         end;
  repeat split; eauto 8.

Ltac run_case Hlog Hf :=
  intros Hf; project_state Hf;
  rewrite Hlog in Hf; cbn [existsb orb] in Hf;
  try (rewrite Hlog; cbn [existsb orb]);
  first [off_path Hf | on_path].

(** What a text turn does to the stores, and what it does when a backend
    call or the chunk lookup fails. *)
Lemma chat_text_run `{CaseTables} (w : World) (request : TextChatRequest)
    (st : state) (out : outcome TextChatResponse) (st' : state) :
  chat_text w request st = (out, st') ->
  chunks st' = chunks st /\
  (log st = [] ->
   (gateway_failed w (log st') = true ->
      (exists b msgs msg,
          LLM.backend_reply w b msgs = inl msg /\
          out = Raise (Exception msg)) /\
      messages st' = messages st /\
      memori_messages st' = memori_messages st) /\
   (retrieval_failed w (log st') = true ->
      (exists msg,
          mongo_fault w ChunksFind = Some msg /\
          out = Raise (Exception msg)) /\
      llm_called (log st') = false /\
      messages st' = messages st)).
Proof.
  intros Hrun. unfold_run. split_run Hrun.
  all: (split; [reflexivity|]; intros Hlog; split; run_case Hlog Hf).
Qed.

(** The same for an audio turn, with the synthesis stage. *)
Lemma chat_audio_run `{CaseTables} (w : World) (user_id : str)
    (session_id : option str) (audio : bytes)
    (st : state) (out : outcome AudioChatResponse) (st' : state) :
  chat_audio w user_id session_id audio st = (out, st') ->
  chunks st' = chunks st /\
  (log st = [] ->
   (gateway_failed w (log st') = true ->
      (exists b msgs msg,
          LLM.backend_reply w b msgs = inl msg /\
          out = Raise (Exception msg)) /\
      messages st' = messages st /\
      memori_messages st' = memori_messages st) /\
   (retrieval_failed w (log st') = true ->
      (exists msg,
          mongo_fault w ChunksFind = Some msg /\
          out = Raise (Exception msg)) /\
      llm_called (log st') = false /\
      messages st' = messages st) /\
   (tts_failed w (log st') = true ->
      (exists text lang msg,
          synthesize_speech w text lang = inl msg /\
          out = Raise (HTTPException 500 (lit "TTS error: " ++ msg))) /\
      messages st' = messages st)).
Proof.
  intros Hrun. unfold_run. split_run Hrun.
  all: (split; [reflexivity|]; intros Hlog; split; [|split];
        run_case Hlog Hf).
Qed.

(** A translation never touches the stores, and a failed synthesis only
    leaves the audio out. *)
Lemma translate_text_run `{CaseTables} (w : World)
    (request : TranslationRequest)
    (st : state) (out : outcome TranslationResponse) (st' : state) :
  translate_text w request st = (out, st') ->
  chunks st' = chunks st /\
  (log st = [] ->
   (tts_failed w (log st') = true ->
      exists translated,
        out = Ok {| input_text := tr_text request;
                    translated_text := translated;
                    source_lang := tr_source_lang request;
                    target_lang := tr_target_lang request;
                    audio_base64 := None |})).
Proof.
  intros Hrun. unfold_run. split_run Hrun.
  all: (split; [reflexivity|]; intros Hlog; run_case Hlog Hf).
Qed.


(** C7. When a model backend call of a chat turn (text or audio) fails, the
    turn ends with that backend's exception, and neither the [messages]
    collection nor Memori's record of exchanges has gained a record. *)
Theorem gateway_failure_writes_no_history `{CaseTables} (w : World) :
  (forall (request : TextChatRequest) (st : state),
      let r := chat_text w request (turn_start st) in
      gateway_failed w (log (snd r)) = true ->
      (exists b msgs msg,
          LLM.backend_reply w b msgs = inl msg /\
          fst r = Raise (Exception msg)) /\
      messages (snd r) = messages st /\
      memori_messages (snd r) = memori_messages st) /\
  (forall (user_id : str) (session_id : option str) (audio : bytes)
          (st : state),
      let r := chat_audio w user_id session_id audio (turn_start st) in
      gateway_failed w (log (snd r)) = true ->
      (exists b msgs msg,
          LLM.backend_reply w b msgs = inl msg /\
          fst r = Raise (Exception msg)) /\
      messages (snd r) = messages st /\
      memori_messages (snd r) = memori_messages st).
Proof.
  split.
  - intros request st r Hfail.
    destruct (chat_text_run w request (turn_start st) (fst r) (snd r))
      as [_ Hrun]; [apply surjective_pairing|].
    destruct (Hrun eq_refl) as [Hgw _]. exact (Hgw Hfail).
  - intros user_id session_id audio st r Hfail.
    destruct (chat_audio_run w user_id session_id audio (turn_start st)
                (fst r) (snd r)) as [_ Hrun]; [apply surjective_pairing|].
    destruct (Hrun eq_refl) as [Hgw _]. exact (Hgw Hfail).
Qed.

Lemma gateway_failure_writes_no_history_witness :
  let r := @chat_text ascii_tables world_llama_down
             (request (lit "Hello") (lit "en")) (turn_start empty_state) in
  fst r = Raise (Exception (lit "Failed to connect to Ollama")) /\
  messages (snd r) = [] /\ memori_messages (snd r) = [].
Proof.
  destruct (@gateway_failure_writes_no_history ascii_tables
              world_llama_down) as [Htext _].
  destruct (Htext (request (lit "Hello") (lit "en")) empty_state)
    as [_ [Hm Hmm]]; [vm_compute; reflexivity|].
  split; [vm_compute; reflexivity|]. split; [exact Hm|exact Hmm].
Defined.

(** C2, as stated, fails: an audio turn whose transcription and generation
    succeed and whose synthesis fails ends in an HTTP 500 error, not in a
    response. *)
Lemma audio_tts_failure_is_fatal :
  let r := @chat_audio ascii_tables world_tts_down (lit "u1")
             (Some a_session) [] (turn_start empty_state) in
  stt_succeeded world_tts_down (log (snd r)) = true /\
  gateway_succeeded world_tts_down (log (snd r)) = true /\
  tts_failed world_tts_down (log (snd r)) = true /\
  fst r = Raise (HTTPException 500 (lit "TTS error: synthesis failed")).
Proof. vm_compute. repeat split; reflexivity. Qed.

(** C2, amended. A failed synthesis call in an audio turn ends the turn with
    HTTP 500 and the detail ["TTS error: "] followed by the cause, and the
    handler stores no message; in the translation handler a failed
    synthesis call still gives the response with the translated text, its
    audio field being null. *)
Theorem tts_failure_fatal_for_audio_only `{CaseTables} (w : World) :
  (forall (user_id : str) (session_id : option str) (audio : bytes)
          (st : state),
      let r := chat_audio w user_id session_id audio (turn_start st) in
      tts_failed w (log (snd r)) = true ->
      (exists text lang msg,
          synthesize_speech w text lang = inl msg /\
          fst r = Raise (HTTPException 500 (lit "TTS error: " ++ msg))) /\
      messages (snd r) = messages st) /\
  (forall (request : TranslationRequest) (st : state),
      let r := translate_text w request (turn_start st) in
      tts_failed w (log (snd r)) = true ->
      exists translated,
        fst r = Ok {| input_text := tr_text request;
                      translated_text := translated;
                      source_lang := tr_source_lang request;
                      target_lang := tr_target_lang request;
                      audio_base64 := None |}).
Proof.
  split.
  - intros user_id session_id audio st r Hfail.
    destruct (chat_audio_run w user_id session_id audio (turn_start st)
                (fst r) (snd r)) as [_ Hrun]; [apply surjective_pairing|].
    destruct (Hrun eq_refl) as [_ [_ Htts]]. exact (Htts Hfail).
  - intros request st r Hfail.
    destruct (translate_text_run w request (turn_start st) (fst r) (snd r))
      as [_ Hrun]; [apply surjective_pairing|].
    exact (Hrun eq_refl Hfail).
Qed.

Lemma tts_failure_fatal_for_audio_only_witness :
  (let r := @chat_audio ascii_tables world_tts_down (lit "u1")
              (Some a_session) [] (turn_start empty_state) in
   messages (snd r) = []) /\
  (let r := translate_text world_tts_down
              TranslationRequest_tts (turn_start empty_state) in
   exists translated,
     fst r = Ok {| input_text := lit "Hello";
                   translated_text := translated;
                   source_lang := lit "en";
                   target_lang := lit "hi";
                   audio_base64 := None |}).
Proof.
  destruct (@tts_failure_fatal_for_audio_only ascii_tables world_tts_down)
    as [Haudio Htr].
  split.
  - destruct (Haudio (lit "u1") (Some a_session) [] empty_state)
      as [_ Hm]; [vm_compute; reflexivity|]. exact Hm.
  - apply (Htr TranslationRequest_tts empty_state). vm_compute. reflexivity.
Defined.

(** C3, as stated, fails: with the chunk store failing the lookup, a text
    turn whose query has a keyword ends with the store's exception and no
    reply. *)
Lemma retrieval_failure_aborts_turn :
  let r := @chat_text ascii_tables world_find_down
             (request (lit "hello world") (lit "en"))
             (turn_start empty_state) in
  retrieval_failed world_find_down (log (snd r)) = true /\
  fst r = Raise (Exception (lit "store unreachable")).
Proof. vm_compute. split; reflexivity. Qed.

(** C3, amended. When the chunk lookup of a chat turn (text or audio) is
    failed by the store, the turn is not recovered: it ends with the
    store's exception before any model backend is called, and the handler
    stores no message. *)
Theorem retrieval_failure_not_recovered `{CaseTables} (w : World) :
  (forall (request : TextChatRequest) (st : state),
      let r := chat_text w request (turn_start st) in
      retrieval_failed w (log (snd r)) = true ->
      (exists msg,
          mongo_fault w ChunksFind = Some msg /\
          fst r = Raise (Exception msg)) /\
      llm_called (log (snd r)) = false /\
      messages (snd r) = messages st) /\
  (forall (user_id : str) (session_id : option str) (audio : bytes)
          (st : state),
      let r := chat_audio w user_id session_id audio (turn_start st) in
      retrieval_failed w (log (snd r)) = true ->
      (exists msg,
          mongo_fault w ChunksFind = Some msg /\
          fst r = Raise (Exception msg)) /\
      llm_called (log (snd r)) = false /\
      messages (snd r) = messages st).
Proof.
  split.
  - intros request st r Hfail.
    destruct (chat_text_run w request (turn_start st) (fst r) (snd r))
      as [_ Hrun]; [apply surjective_pairing|].
    destruct (Hrun eq_refl) as [_ Hret]. exact (Hret Hfail).
  - intros user_id session_id audio st r Hfail.
    destruct (chat_audio_run w user_id session_id audio (turn_start st)
                (fst r) (snd r)) as [_ Hrun]; [apply surjective_pairing|].
    destruct (Hrun eq_refl) as [_ [Hret _]]. exact (Hret Hfail).
Qed.

Lemma retrieval_failure_not_recovered_witness :
  let r := @chat_text ascii_tables world_find_down
             (request (lit "hello world") (lit "en"))
             (turn_start empty_state) in
  llm_called (log (snd r)) = false /\ messages (snd r) = [].
Proof.
  destruct (@retrieval_failure_not_recovered ascii_tables world_find_down)
    as [Htext _].
  destruct (Htext (request (lit "hello world") (lit "en")) empty_state)
    as [_ Hrest]; [vm_compute; reflexivity|].
  exact Hrest.
Defined.

(** [MemoriWrapper.chat] makes the one backend call of [LocalLLMClient.chat]
    and none after it. *)
Lemma memori_chat_calls_once `{CaseTables} (w : World)
    (user_id session_id text lang : str) (st : state) :
  exists messages rest,
    log (snd (Memori.chat w user_id session_id text lang st)) =
      (log st
       ++ [LLMCall (backend_of (choose_model text lang)) messages])
      ++ rest /\
    llm_called rest = false.
Proof.
  destruct (Memori.chat w user_id session_id text lang st)
    as [out st'] eqn:Hrun.
  unfold_run. split_run Hrun.
  all: cbn [snd log log_event bump_oid add_memori_message set_log
            set_next_oid set_memori_messages backend_of].
  all: first
         [ eexists; exists []; split; [rewrite app_nil_r|]; reflexivity
         | eexists; eexists; split; reflexivity ].
Qed.

(** C8. [LocalLLMClient.chat] makes exactly one backend call, to Sarvam when
    [choose_model] answers light and to Llama otherwise; [model_used] names
    that backend; when the call fails its exception is the result and no
    other call is made. [MemoriWrapper.chat], through which both chat
    handlers reach the gateway, adds no backend call of its own. *)
Theorem chat_calls_the_chosen_backend `{CaseTables} (w : World)
    (text lang : str) :
  let b := backend_of (choose_model text lang) in
  (forall (context : str) (st : state),
      exists messages,
        LLM.chat w text lang context st =
          (match LLM.backend_reply w b messages with
           | inr reply =>
               Ok {| LLM.reply := reply; LLM.model_used := model_name b |}
           | inl msg => Raise (Exception msg)
           end,
           log_event (LLMCall b messages) st)) /\
  (forall (user_id session_id : str) (st : state),
      exists messages rest,
        log (snd (Memori.chat w user_id session_id text lang st)) =
          (log st ++ [LLMCall b messages]) ++ rest /\
        llm_called rest = false) /\
  (b = Sarvam <-> choose_model text lang = light) /\
  (b = Llama <-> choose_model text lang <> light) /\
  model_name Sarvam <> model_name Llama.
Proof.
  intros b. subst b. split; [|split].
  - intros context st.
    exists [ {| msg_role := system;
                msg_content :=
                  match context with
                  | [] => LLM.SYSTEM_PROMPT
                  | _ => LLM.SYSTEM_PROMPT ++ nl ++ nl
                         ++ lit "Context from uploaded documents:" ++ nl
                         ++ context
                  end |};
             {| msg_role := user; msg_content := text |} ].
    unfold LLM.chat, LLM.client_chat, emit, call, bind, ret, raise.
    destruct (choose_model text lang) eqn:Hc; cbn [backend_of model_name];
      cbv beta iota zeta.
    + destruct (LLM.backend_reply w Sarvam _); reflexivity.
    + destruct (LLM.backend_reply w Llama _); reflexivity.
  - intros user_id session_id st. apply memori_chat_calls_once.
  - destruct (choose_model text lang) eqn:Hc; cbn [backend_of].
    + split; [split; reflexivity|]. split; [|discriminate].
      split; [discriminate|]. intros Hne. exfalso. apply Hne. reflexivity.
    + split; [split; discriminate|]. split; [|discriminate].
      split; [discriminate|reflexivity].
Qed.

(** ** The ids the store generates are ids [ObjectId] accepts *)

Lemma length_hex_digits (k : nat) (n : N) :
  List.length (hex_digits k n) = k.
Proof.
  revert n. induction k as [|k IH]; intros n; simpl; [reflexivity|].
  rewrite length_app, IH. simpl. lia.
Qed.

Lemma length_oid_str (n : N) : List.length (oid_str n) = 24%nat.
Proof. apply length_hex_digits. Qed.

Lemma hex_digit_plain (d : N) : (d < 16)%N -> plain_digit (hex_digit d).
Proof.
  intros Hd.
  assert (In d (map N.of_nat (seq 0 16))) as Hin.
  { apply in_map_iff. exists (N.to_nat d). split; [lia|].
    apply in_seq. lia. }
  cbn in Hin.
  repeat (destruct Hin as [<-|Hin]; [repeat split; reflexivity|]).
  destruct Hin.
Qed.

Lemma hex_digits_plain (k : nat) (n : N) :
  Forall plain_digit (hex_digits k n).
Proof.
  revert n. induction k as [|k IH]; intros n; simpl; [constructor|].
  apply Forall_app. split; [apply IH|].
  constructor; [|constructor]. apply hex_digit_plain.
  apply N.mod_lt. discriminate.
Qed.

Lemma fromhex_plain (k : nat) :
  forall s : str,
    List.length s = (2 * k)%nat -> Forall plain_digit s ->
    fromhex s = Some s.
Proof.
  induction k as [|k IH]; intros s Hlen Hall.
  - destruct s; [reflexivity|discriminate Hlen].
  - destruct s as [|c [|d s]]; try (simpl in Hlen; lia).
    inversion Hall as [|? ? (Hc & Hsp & Hlow) Hall']; subst.
    inversion Hall' as [|? ? (Hd & _ & Hlow') Hall'']; subst.
    cbn [fromhex]. rewrite Hsp, Hc, Hd. cbn [andb].
    rewrite (IH s), Hlow, Hlow'; [reflexivity| |exact Hall''].
    simpl in Hlen. lia.
Qed.

(** [ObjectId(str(oid))] is [oid]. *)
Lemma fromhex_oid_str (n : N) : fromhex (oid_str n) = Some (oid_str n).
Proof.
  apply (fromhex_plain 12); [apply length_oid_str|apply hex_digits_plain].
Qed.

Lemma Ok_inj {A} (a b : A) : Ok a = Ok b -> a = b.
Proof. intros Heq. injection Heq as ->. reflexivity. Qed.

Lemma length_update_first (id : str) (now : N) (l : list session_rec) :
  List.length (update_first id now l) = List.length l.
Proof.
  induction l as [|s l IH]; simpl; [reflexivity|].
  destruct (str_eqb (s_id s) id); simpl; [reflexivity|].
  rewrite IH. reflexivity.
Qed.

Ltac project_goal :=
  cbn [log messages memori_messages sessions chunks documents next_oid
       set_log set_messages set_sessions set_next_oid set_memori_messages
       set_chunks set_documents
       log_event bump_oid add_session add_message add_memori_message
       add_chunks add_document touch_session turn_start].


Ltac close_ok_case :=
  lazymatch goal with
  | Hok : Ok _ = Ok _ |- _ => apply Ok_inj in Hok; subst
  | Hok : Raise _ = Ok _ |- _ => discriminate Hok
  end.

(** The turn answered: read the response and the stores off the path. *)
Ltac answered_case :=
  let resp := fresh "resp" in
  let Hok := fresh "Hok" in
  intros resp Hok;
  first
    [ discriminate Hok
    | apply Ok_inj in Hok; subst resp;
      cbn [user_text lang assistant_text model_used session_id
           a_user_text a_assistant_text a_lang a_model_used a_session_id
           a_audio_format a_audio_base64 fst snd
           Memori.reply Memori.model_used LLM.reply LLM.model_used];
      unfold user_message, assistant_message;
      project_goal; cbv iota;
      rewrite ?length_update_first, ?length_app, <- ?app_assoc;
      cbn [List.length app Nat.add] ].

(** A supplied session id that is not 24 characters long. *)
Ltac bad_session_case request :=
  let sid := fresh "sid" in
  let Hsid := fresh "Hsid" in
  let Hne := fresh "Hne" in
  let Hlen := fresh "Hlen" in
  let Hinv := fresh "Hinv" in
  intros sid Hsid Hne Hlen;
  try discriminate Hsid;
  try (injection Hsid as <-);
  first
    [ exfalso; apply Hne; reflexivity
    | match goal with
      | Hv : (_ =? 24)%nat = true |- _ =>
          apply Nat.eqb_eq in Hv; contradiction
      end
    | split; [eexists; reflexivity|];
      intros Hinv;
      first
        [ discriminate Hinv
        | unfold user_message, assistant_message;
          project_goal; cbv iota;
          rewrite <- ?app_assoc;
          eexists; eexists; reflexivity ] ].

(** A query without keyword: no lookup, and the one backend call there
    may be carries the text as the user wrote it. *)
Ltac no_keyword_case :=
  let Hlog := fresh "Hlog" in
  let Hkw := fresh "Hkw" in
  let Hin := fresh "Hin" in
  intros Hlog Hkw;
  first
    [ discriminate Hkw
    | unfold store_searched; project_goal;
      rewrite ?PipelineFacts.existsb_snoc; rewrite ?Hlog;
      cbv iota; cbn [existsb orb];
      split; [reflexivity|];
      intros b msgs Hin; rewrite ?in_app_iff in Hin; cbn [In] in Hin;
      repeat match type of Hin with
             | _ \/ _ => destruct Hin as [Hin|Hin]
             | False => destruct Hin
             end;
      first [ discriminate Hin
            | injection Hin as <- <-; split; reflexivity ] ].

(** Any backend call of the turn carries the gateway's two messages and
    goes to the backend chosen for the text sent and the resolved
    language. *)
Ltac routed_case :=
  let Hlog := fresh "Hlog" in
  let Hin := fresh "Hin" in
  intros Hlog ? ? Hin;
  project_in Hin; rewrite Hlog in Hin;
  rewrite ?in_app_iff in Hin; cbn [In app] in Hin;
  repeat match type of Hin with
         | _ \/ _ => destruct Hin as [Hin|Hin]
         | False => destruct Hin
         end;
  first [ discriminate Hin
        | injection Hin as <- <-;
          unfold gateway_messages; eexists; split; [reflexivity|];
          match goal with
          | Hq : choose_model _ _ = _ |- _ =>
              exact (eq_sym (f_equal backend_of Hq))
          end ].

(** With the stores and the backends up, the pattern compiling and the
    session id accepted, no step of the turn fails. *)
Ltac all_up_case :=
  let Hset := fresh "Hset" in
  let Hdb := fresh "Hdb" in
  let Hmongo := fresh "Hmongo" in
  let Hllm := fresh "Hllm" in
  let Hre := fresh "Hre" in
  let Hsid := fresh "Hsid" in
  let Hc := fresh "Hc" in
  intros Hset Hdb Hmongo Hllm Hre Hsid;
  first
    [ eexists; reflexivity
    | discriminate Hset
    | discriminate Hdb
    | cbn [is_inl] in Hre; discriminate Hre
    | cbn [andb is_some] in Hsid; discriminate Hsid
    | match goal with
      | Hq : negb (memori_wrapper_set _) = true |- _ =>
          rewrite Hset in Hq; discriminate Hq
      end
    | match goal with
      | Hq : (List.length (oid_str _) =? 24)%nat = false |- _ =>
          rewrite length_oid_str, Nat.eqb_refl in Hq; discriminate Hq
      end
    | match goal with
      | Hq : fromhex (oid_str _) = None |- _ =>
          rewrite fromhex_oid_str in Hq; discriminate Hq
      end
    | match goal with
      | Hq : mongo_fault _ _ = Some _ |- _ =>
          rewrite Hmongo in Hq; discriminate Hq
      end
    | match goal with
      | Hq : LLM.backend_reply _ ?b ?m = inl _ |- _ =>
          pose proof (Hllm b m) as Hc; rewrite Hq in Hc; discriminate Hc
      end ].

(** A turn that answers has called a backend. *)
Ltac called_case :=
  let resp := fresh "resp" in
  let Hok := fresh "Hok" in
  intros resp Hok;
  first
    [ discriminate Hok
    | unfold llm_called; project_goal;
      rewrite ?existsb_snoc; cbn [existsb orb];
      rewrite ?orb_false_r, ?orb_true_r; reflexivity ].

(** What a text turn has done when it answers, what it does with a session
    id that is no ObjectId, what it sends to which backend, and that it
    answers when nothing it calls fails. *)
Lemma chat_text_post `{CaseTables} (w : World) (request : TextChatRequest)
    (st : state) (out : outcome TextChatResponse) (st' : state) :
  chat_text w request st = (out, st') ->
  (forall resp, out = Ok resp ->
     user_text resp = rq_text request /\
     lang resp = resolved_lang w request /\
     (exists b msgs,
         LLM.backend_reply w b msgs = inr (assistant_text resp) /\
         model_used resp = model_name b) /\
     messages st' =
       messages st
       ++ [ user_message w (session_id resp) (rq_text request) (lang resp);
            assistant_message w (session_id resp) (assistant_text resp)
              (lang resp) (model_used resp) ] /\
     match rq_session_id request with
     | Some (c :: s) =>
         session_id resp = c :: s /\
         List.length (sessions st') = List.length (sessions st)
     | _ =>
         session_id resp = oid_str (next_oid st + 1) /\
         List.length (sessions st') = S (List.length (sessions st))
     end) /\
  (forall sid, rq_session_id request = Some sid -> sid <> [] ->
     List.length sid <> 24%nat ->
     (exists e, out = Raise e) /\
     (out = Raise (InvalidId sid) ->
      exists reply model,
        messages st' =
          messages st
          ++ [ user_message w sid (rq_text request)
                 (resolved_lang w request);
               assistant_message w sid reply (resolved_lang w request)
                 model ])) /\
  (log st = [] -> keywords_of (rq_text request) = [] ->
     store_searched (log st') = false /\
     forall b msgs, In (LLMCall b msgs) (log st') ->
       b = backend_of
             (choose_model (rq_text request) (resolved_lang w request)) /\
       msgs = [ {| msg_role := system; msg_content := LLM.SYSTEM_PROMPT |};
                {| msg_role := user; msg_content := rq_text request |} ]) /\
  (log st = [] ->
     forall b msgs, In (LLMCall b msgs) (log st') ->
       exists routed,
         msgs = gateway_messages routed /\
         b = backend_of (choose_model routed (resolved_lang w request))) /\
  (memori_wrapper_set w = true -> mongo_db_set w = true ->
   (forall op, mongo_fault w op = None) ->
   (forall b msgs, is_inl (LLM.backend_reply w b msgs) = false) ->
   is_inl (regex_compile w (pattern_of (rq_text request))) = false ->
   session_id_accepted (rq_session_id request) = true ->
   exists resp, out = Ok resp) /\
  (forall resp, out = Ok resp -> llm_called (log st') = true).
Proof.
  intros Hrun.
  unfold resolved_lang, pattern_of, keywords_of, session_id_accepted.
  unfold_run. split_run Hrun.
  all: split;
    [ answered_case;
      repeat split; try reflexivity; try lia;
      try (eexists; eexists; split; [eassumption|reflexivity])
    | split; [bad_session_case request|];
      split; [no_keyword_case|];
      split; [routed_case|];
      split; [all_up_case|called_case] ].
Qed.

(** C10. For a text request with [lang = "auto"] the language of the turn
    is the one detected from the request text, or ["en"] when detection
    raises. It is the language the router decides with for every backend
    call of the turn, the language of the response and of both message
    records; and detection never fails the turn: with the stores and the
    backends up, the pattern compiling and the session id accepted, the turn
    answers in that language, having called a backend, whether or not
    detection raised. The whole turn is the turn of the same request
    carrying that language. *)
Theorem auto_language_is_detected_or_en `{CaseTables} (w : World)
    (request : TextChatRequest) (st : state) :
  rq_lang request = lit "auto" ->
  let l := match detect w (rq_text request) with
           | Some detected => detected
           | None => lit "en"
           end in
  let r := chat_text w request (turn_start st) in
  (forall b msgs, In (LLMCall b msgs) (log (snd r)) ->
     exists routed,
       msgs = gateway_messages routed /\
       b = backend_of (choose_model routed l)) /\
  (forall resp, fst r = Ok resp ->
     lang resp = l /\
     messages (snd r) =
       messages st
       ++ [ user_message w (session_id resp) (rq_text request) l;
            assistant_message w (session_id resp) (assistant_text resp) l
              (model_used resp) ]) /\
  (memori_wrapper_set w = true -> mongo_db_set w = true ->
   (forall op, mongo_fault w op = None) ->
   (forall b msgs, is_inl (LLM.backend_reply w b msgs) = false) ->
   is_inl (regex_compile w (pattern_of (rq_text request))) = false ->
   session_id_accepted (rq_session_id request) = true ->
   exists resp,
     fst r = Ok resp /\ lang resp = l /\
     llm_called (log (snd r)) = true) /\
  r = chat_text w (set_lang l request) (turn_start st).
Proof.
  intros Hauto l r.
  assert (resolved_lang w request = l) as Hl.
  { unfold resolved_lang. rewrite Hauto.
    change (str_eqb (lit "auto") (lit "auto")) with true. reflexivity. }
  destruct (chat_text_post w request (turn_start st) (fst r) (snd r))
    as (Hanswer & _ & _ & Hrouted & Hup & Hcalled);
    [apply surjective_pairing|].
  rewrite Hl in *.
  split; [exact (Hrouted eq_refl)|].
  split.
  { intros resp Hok.
    destruct (Hanswer resp Hok) as (_ & Hlang & _ & Hmsgs & _).
    split; [exact Hlang|]. rewrite Hmsgs, Hlang. reflexivity. }
  split.
  { intros Hset Hdb Hmongo Hllm Hre Hsid.
    destruct (Hup Hset Hdb Hmongo Hllm Hre Hsid) as [resp Hok].
    exists resp. split; [exact Hok|].
    split; [|exact (Hcalled resp Hok)].
    destruct (Hanswer resp Hok) as (_ & Hlang & _). exact Hlang. }
  subst r l. unfold chat_text. rewrite Hauto.
  cbn [set_lang rq_lang rq_text rq_user_id rq_session_id].
  change (str_eqb (lit "auto") (lit "auto")) with true. cbv iota.
  destruct (detect w (rq_text request)) as [detected|] eqn:Hdetect.
  - destruct (str_eqb detected (lit "auto")); reflexivity.
  - change (str_eqb (lit "en") (lit "auto")) with false. reflexivity.
Qed.

Lemma auto_language_is_detected_or_en_witness :
  (let r := @chat_text ascii_tables world_detect_fails
              (request (lit "12345") (lit "auto"))
              (turn_start empty_state) in
   exists resp,
     fst r = Ok resp /\ lang resp = lit "en" /\
     llm_called (log (snd r)) = true) /\
  (let r := @chat_text ascii_tables world_detect_hi
              (request namaste (lit "auto")) (turn_start empty_state) in
   (exists resp,
       fst r = Ok resp /\ lang resp = lit "hi" /\
       llm_called (log (snd r)) = true) /\
   In (LLMCall Sarvam (gateway_messages namaste)) (log (snd r)) /\
   Sarvam = backend_of (@choose_model ascii_tables namaste (lit "hi"))).
Proof.
  split.
  - destruct (@auto_language_is_detected_or_en ascii_tables
                world_detect_fails (request (lit "12345") (lit "auto"))
                empty_state eq_refl) as (_ & _ & Hup & _).
    apply Hup;
      [ reflexivity | reflexivity | intros op; reflexivity
      | intros [] msgs; reflexivity
      | vm_compute; reflexivity | vm_compute; reflexivity ].
  - destruct (@auto_language_is_detected_or_en ascii_tables
                world_detect_hi (request namaste (lit "auto"))
                empty_state eq_refl) as (Hrouted & _ & Hup & _).
    split.
    + apply Hup;
        [ reflexivity | reflexivity | intros op; reflexivity
        | intros [] msgs; reflexivity
        | vm_compute; reflexivity | vm_compute; reflexivity ].
    + assert (In (LLMCall Sarvam (gateway_messages namaste))
                (log (snd (@chat_text ascii_tables world_detect_hi
                             (request namaste (lit "auto"))
                             (turn_start empty_state))))) as Hin
        by (vm_compute; repeat (first [left; reflexivity|right])).
      split; [exact Hin|].
      destruct (Hrouted Sarvam (gateway_messages namaste) Hin)
        as (routed & Hmsgs & Hb).
      unfold gateway_messages in Hmsgs. injection Hmsgs as Hsame.
      rewrite <- Hsame in Hb. exact Hb.
Defined.

(** C1 does not hold of the code. The handler appends the retrieved context
    to the text before the gateway routes: for the Hindi greeting with a
    stored chunk that mentions code, [choose_model] on what the user wrote
    answers light, yet the turn is routed on the augmented text and answered
    by the heavy backend. *)
Theorem routing_sees_retrieved_context :
  let rq := request namaste (lit "hi") in
  let r := @chat_text ascii_tables world_ok rq
             (state_with_chunks [greeting_chunk]) in
  let routed :=
    namaste ++ nl ++ nl ++ lit "[Context from documents: "
    ++ (namaste ++ lit " code") ++ lit "]" in
  @choose_model ascii_tables (rq_text rq) (rq_lang rq) = light /\
  @choose_model ascii_tables routed (rq_lang rq) = heavy /\
  routed <> rq_text rq /\
  In (LLMCall Llama
        [ {| msg_role := system; msg_content := LLM.SYSTEM_PROMPT |};
          {| msg_role := user; msg_content := routed |} ])
     (log (snd r)) /\
  llm_called (filter (fun e => match e with
                               | LLMCall Sarvam _ => true
                               | _ => false
                               end) (log (snd r))) = false /\
  exists resp,
    fst r = Ok resp /\ model_used resp = lit "llama-3.1-8b".
Proof.
  vm_compute.
  split; [reflexivity|]. split; [reflexivity|]. split; [discriminate|].
  split; [right; left; reflexivity|]. split; [reflexivity|].
  eexists. split; reflexivity.
Qed.


End PipelineFacts.

(* ===================================================================== *)
(** * Properties of retrieval *)
(* ===================================================================== *)

Module RetrievalFacts.
Import Trace Samples DocumentStore Observe.

Lemma cp_eqb_eq (a b : codepoint) : cp_eqb a b = true <-> a = b.
Proof. unfold cp_eqb. apply N.eqb_eq. Qed.

Lemma str_eqb_eq (a b : str) : str_eqb a b = true <-> a = b.
Proof.
  revert b. induction a as [|x a IH]; intros [|y b]; simpl;
    try (split; [discriminate|discriminate]); try (split; reflexivity).
  rewrite andb_true_iff, cp_eqb_eq, IH.
  split; [intros [-> ->]; reflexivity|intros Heq; injection Heq; auto].
Qed.

Lemma plain_no_bar (k : str) :
  plain k = true -> Forall (fun c => cp_eqb c bar = false) k.
Proof.
  unfold plain. rewrite forallb_forall. intros Hk.
  apply Forall_forall. intros c Hc. specialize (Hk c Hc).
  destruct (cp_eqb c bar) eqn:Hb; [|reflexivity].
  apply cp_eqb_eq in Hb. subst c. discriminate Hk.
Qed.

(** Reading a bar-free keyword only extends the current alternative. *)
Lemma split_bar_app (k rest cur : str) :
  Forall (fun c => cp_eqb c bar = false) k ->
  split_bar cur (k ++ rest) = split_bar (rev k ++ cur) rest.
Proof.
  intros Hk. revert cur.
  induction Hk as [|c k Hc Hk IH]; intros cur; simpl; [reflexivity|].
  rewrite Hc, IH, <- app_assoc. reflexivity.
Qed.

Lemma split_bar_join (k : str) (ks : list str) :
  Forall (fun k => plain k = true) (k :: ks) ->
  split_bar [] (join [bar] (k :: ks)) = k :: ks.
Proof.
  revert k. induction ks as [|k' ks IH]; intros k Hall.
  - simpl. rewrite <- (app_nil_r k) at 1.
    rewrite split_bar_app by (apply plain_no_bar; inversion Hall; assumption).
    simpl. rewrite app_nil_r, rev_involutive. reflexivity.
  - change (join [bar] (k :: k' :: ks))
      with (k ++ [bar] ++ join [bar] (k' :: ks)).
    rewrite split_bar_app by (apply plain_no_bar; inversion Hall; assumption).
    cbn [app split_bar]. unfold cp_eqb at 1. rewrite N.eqb_refl.
    rewrite app_nil_r, rev_involutive, IH by (inversion Hall; assumption).
    reflexivity.
Qed.

Lemma parse_alt_plain (k : str) :
  plain k = true -> parse_alt k = Some (map Lit k).
Proof.
  unfold plain. induction k as [|c k IH]; simpl; [reflexivity|].
  rewrite andb_true_iff, negb_true_iff. intros [Hc Hk].
  rewrite (IH Hk), Hc.
  destruct (cp_eqb c 46%N) eqn:Hdot; [|reflexivity].
  apply cp_eqb_eq in Hdot. subst c. discriminate Hc.
Qed.

Lemma parse_alts_plain (ks : list str) :
  Forall (fun k => plain k = true) ks ->
  parse_alts ks = Some (map (map Lit) ks).
Proof.
  induction 1 as [|k ks Hk Hks IH]; simpl; [reflexivity|].
  rewrite (parse_alt_plain k Hk), IH. reflexivity.
Qed.

Lemma alt_matches_at_lit `{CaseTables} (k s : str) :
  alt_matches_at (map Lit k) s = true ->
  exists mid post,
    s = mid ++ post /\ Forall2 (fun a b => caseless_eq a b = true) k mid.
Proof.
  revert s. induction k as [|c k IH]; intros s; simpl.
  - intros _. exists [], s. split; [reflexivity|constructor].
  - destruct s as [|d s]; [discriminate|].
    rewrite andb_true_iff. intros [Hc Hk].
    destruct (IH s Hk) as (mid & post & -> & Hall).
    exists (d :: mid), post. split; [reflexivity|].
    constructor; assumption.
Qed.

Lemma lit_matches_at `{CaseTables} (k mid post : str) :
  Forall2 (fun a b => caseless_eq a b = true) k mid ->
  alt_matches_at (map Lit k) (mid ++ post) = true.
Proof.
  induction 1 as [|c d k mid Hc Hk IH]; simpl; [reflexivity|].
  rewrite Hc, IH. reflexivity.
Qed.

(** Searching for a sequence of literals is caseless substring containment. *)
Lemma alt_search_lit `{CaseTables} (k s : str) :
  alt_search (map Lit k) s = true <-> CaselessSubstring k s.
Proof.
  split.
  - induction s as [|d s IH]; simpl; rewrite orb_true_iff.
    + intros [Hm|Hm]; [|discriminate].
      destruct (alt_matches_at_lit k [] Hm) as (mid & post & Heq & Hall).
      exists [], mid, post. split; [exact Heq|exact Hall].
    + intros [Hm|Hm].
      * destruct (alt_matches_at_lit k (d :: s) Hm)
          as (mid & post & Heq & Hall).
        exists [], mid, post. split; [exact Heq|exact Hall].
      * destruct (IH Hm) as (pre & mid & post & -> & Hall).
        exists (d :: pre), mid, post. split; [reflexivity|exact Hall].
  - intros (pre & mid & post & -> & Hall).
    induction pre as [|d pre IH].
    + simpl. destruct (mid ++ post) eqn:Hmp; simpl;
        rewrite <- Hmp, (lit_matches_at k mid post Hall); reflexivity.
    + simpl. rewrite IH. apply orb_true_r.
Qed.

Lemma regex_search_lits `{CaseTables} (ks : list str) (s : str) :
  regex_search (map (map Lit) ks) s = true ->
  exists k, In k ks /\ CaselessSubstring k s.
Proof.
  unfold regex_search. rewrite existsb_exists.
  intros (alt & Hin & Hs). apply in_map_iff in Hin.
  destruct Hin as (k & <- & Hk). exists k. split; [exact Hk|].
  apply alt_search_lit. exact Hs.
Qed.

(** A pattern made of plain keywords is inside the modelled fragment. *)
Lemma regex_compile_plain `{CaseTables} (w : World) (k : str)
    (ks : list str) :
  Forall (fun k => plain k = true) (k :: ks) ->
  regex_compile w (join [bar] (k :: ks)) =
  inr (regex_search (map (map Lit) (k :: ks))).
Proof.
  intros Hall. unfold regex_compile, parse_regex.
  rewrite split_bar_join, parse_alts_plain by exact Hall. reflexivity.
Qed.

Lemma cursor_limit_incl {A} (n : Z) (l : list A) (x : A) :
  In x (cursor_limit n l) -> In x l.
Proof.
  unfold cursor_limit. destruct (n =? 0); [auto|].
  revert l. induction (Z.to_nat (Z.abs n)) as [|m IH]; intros l; simpl.
  - intros [].
  - destruct l as [|a l]; simpl; [intros []|].
    intros [->|Hin]; [left; reflexivity|right; apply IH; exact Hin].
Qed.

Lemma cursor_limit_length {A} (n : Z) (l : list A) :
  n <> 0 -> len (cursor_limit n l) <= Z.abs n.
Proof.
  intros Hn. unfold cursor_limit, len.
  destruct (n =? 0) eqn:Hz; [lia|].
  pose proof (firstn_le_length (Z.to_nat (Z.abs n)) l). lia.
Qed.

(** C6 does not hold of the code. The function is documented as a keyword
    search by case-insensitive text matching, but it joins the keywords,
    unescaped, into the regular expression it hands to the store: for the
    query [h.llo] the dot stands for any character, and the chunk
    ["hallo world"], which does not contain the keyword [h.llo], is
    returned. *)
Theorem retrieval_is_a_regex_search :
  let r := @get_relevant_chunks ascii_tables world_ok (lit "u1")
             (lit "h.llo") 5 (state_with_chunks [hallo_chunk]) in
  @keywords_of ascii_tables (lit "h.llo") = [lit "h.llo"] /\
  fst r = Ok [lit "hallo world"] /\
  ~ @CaselessSubstring ascii_tables (lit "h.llo") (lit "hallo world").
Proof.
  cbv zeta.
  split; [vm_compute; reflexivity|]. split; [vm_compute; reflexivity|].
  intros Hsub. apply (@alt_search_lit ascii_tables) in Hsub.
  vm_compute in Hsub. discriminate Hsub.
Qed.

Lemma existsb_map {A B} (f : B -> bool) (g : A -> B) (l : list A) :
  existsb f (map g l) = existsb (fun a => f (g a)) l.
Proof.
  induction l as [|a l IH]; simpl; [reflexivity|]. rewrite IH. reflexivity.
Qed.

(** A text matches the pattern of plain keywords exactly when it mentions
    one of them. *)
Lemma regex_search_mentions `{CaseTables} (ks : list str) (s : str) :
  regex_search (map (map Lit) ks) s = mentions ks s.
Proof. unfold regex_search, mentions. apply existsb_map. Qed.

Lemma mentions_spec `{CaseTables} (ks : list str) (s : str) :
  mentions ks s = true <-> exists k, In k ks /\ CaselessSubstring k s.
Proof.
  unfold mentions. rewrite existsb_exists.
  split; intros (k & Hin & Hk); exists k; (split; [exact Hin|]);
    apply alt_search_lit; exact Hk.
Qed.

(** X20. Retrieval with keywords that hold no regular-expression
    metacharacter, the database handle being set. Without keywords the
    result is the empty list and the store is not called. Otherwise there is
    exactly one store call; if the store fails it, its exception is raised
    to the caller; if not, the result is, in store order, the texts of the
    chunks of the requested owner that mention one of the first five
    keywords, cut by the cursor's limit (the first [|limit|] of them, all of
    them for a limit of [0]). A text mentions a keyword exactly when the
    keyword occurs in it as a contiguous run of characters, compared
    without regard to case. *)
Theorem retrieval_with_plain_keywords `{CaseTables} (w : World)
    (user_id query : str) (limit : Z) (st : state) :
  mongo_db_set w = true ->
  let keywords := take 5 (keywords_of query) in
  let found :=
    cursor_limit limit
      (filter (fun c => str_eqb (c_user_id c) user_id
                        && mentions keywords (c_text c))
              (chunks st)) in
  (keywords_of query = [] ->
   get_relevant_chunks w user_id query limit st = (Ok [], st)) /\
  (keywords_of query <> [] ->
   Forall (fun k => plain k = true) keywords ->
   get_relevant_chunks w user_id query limit st =
   (match mongo_fault w ChunksFind with
    | Some msg => Raise (Exception msg)
    | None => Ok (map c_text found)
    end,
    log_event (MongoCall ChunksFind) st)) /\
  (forall text,
      mentions keywords text = true <->
      exists k, In k keywords /\ CaselessSubstring k text) /\
  (limit <> 0 -> len found <= Z.abs limit).
Proof.
  intros Hdb keywords found. subst keywords found.
  split; [|split; [|split]].
  - intros Hkw. unfold get_relevant_chunks, get_collection, bind, ret, raise.
    rewrite Hdb. cbv beta iota zeta. fold (keywords_of query).
    rewrite Hkw. reflexivity.
  - intros Hne Hplain.
    unfold get_relevant_chunks, get_collection, bind, ret, raise.
    rewrite Hdb. cbv beta iota zeta. fold (keywords_of query).
    destruct (keywords_of query) as [|k ks] eqn:Hkw;
      [exfalso; apply Hne; reflexivity|].
    assert (exists k' ks', take 5 (k :: ks) = k' :: ks')
      as (k' & ks' & Htake) by (eexists; eexists; reflexivity).
    rewrite Htake in *.
    unfold chunks_find, mongo_call, emit, call, bind, ret, raise.
    cbv beta iota zeta.
    destruct (mongo_fault w ChunksFind) as [msg|];
      cbv beta iota zeta; [reflexivity|].
    rewrite (regex_compile_plain w k' ks' Hplain).
    cbv beta iota zeta. cbn [chunks log_event set_log].
    do 4 f_equal. apply filter_ext. intros c.
    rewrite regex_search_mentions. reflexivity.
  - intros text. apply mentions_spec.
  - intros Hlim. apply cursor_limit_length. exact Hlim.
Qed.

Lemma retrieval_with_plain_keywords_witness :
  @get_relevant_chunks ascii_tables world_ok (lit "u1") (lit "say hello") 5
    (state_with_chunks [hello_chunk; other_chunk; hallo_chunk]) =
  (Ok [lit "Hello there"],
   log_event (MongoCall ChunksFind)
     (state_with_chunks [hello_chunk; other_chunk; hallo_chunk])) /\
  @get_relevant_chunks ascii_tables world_find_down (lit "u1")
    (lit "say hello") 5 (state_with_chunks [hello_chunk]) =
  (Raise (Exception (lit "store unreachable")),
   log_event (MongoCall ChunksFind) (state_with_chunks [hello_chunk])).
Proof.
  split.
  - destruct (@retrieval_with_plain_keywords ascii_tables world_ok (lit "u1")
                (lit "say hello") 5
                (state_with_chunks [hello_chunk; other_chunk; hallo_chunk])
                eq_refl) as (_ & Hfound & _).
    rewrite Hfound;
      [reflexivity|vm_compute; discriminate|vm_compute; repeat constructor].
  - destruct (@retrieval_with_plain_keywords ascii_tables world_find_down
                (lit "u1") (lit "say hello") 5
                (state_with_chunks [hello_chunk]) eq_refl)
      as (_ & Hfound & _).
    rewrite Hfound;
      [reflexivity|vm_compute; discriminate|vm_compute; repeat constructor].
Defined.

End RetrievalFacts.

(* ===================================================================== *)
(** * Properties of ingestion *)
(* ===================================================================== *)

Module IngestFacts.
Import Trace Samples DocumentStore Routes Observe.

Lemma chunk_records_from_index (document_id user_id : str) (now : N)
    (texts : list str) :
  forall idx : Z,
    map c_chunk_index (chunk_records_from document_id user_id now idx texts)
    = map (fun k => idx + Z.of_nat k) (seq 0 (List.length texts)).
Proof.
  induction texts as [|t texts IH]; intros idx; simpl; [reflexivity|].
  rewrite IH, <- seq_shift, map_map. f_equal; [lia|].
  apply map_ext. intros k. lia.
Qed.

Lemma chunk_records_from_fields (document_id user_id : str) (now : N)
    (texts : list str) :
  forall idx : Z,
    let records := chunk_records_from document_id user_id now idx texts in
    map c_text records = texts /\
    Forall (fun r => c_document_id r = document_id /\ c_user_id r = user_id)
           records.
Proof.
  induction texts as [|t texts IH]; intros idx; simpl.
  - split; [reflexivity|constructor].
  - destruct (IH (idx + 1)) as [Htexts Hall]. split.
    + rewrite Htexts. reflexivity.
    + constructor; [split; reflexivity|exact Hall].
Qed.

Lemma of_nat_seq_NoDup (n : nat) : NoDup (map Z.of_nat (seq 0 n)).
Proof.
  apply Injective_map_NoDup; [|apply seq_NoDup].
  intros a b Hab. lia.
Qed.

(** The record at position [i] holds the [i]-th text under the index
    [idx + i]. *)
Lemma chunk_records_from_nth (document_id user_id : str) (now : N)
    (texts : list str) :
  forall (idx : Z) (i : nat),
    nth_error (chunk_records_from document_id user_id now idx texts) i =
    option_map (fun t => {| c_document_id := document_id;
                            c_user_id := user_id;
                            c_text := t;
                            c_chunk_index := idx + Z.of_nat i;
                            c_created_at := now |})
               (nth_error texts i).
Proof.
  induction texts as [|t texts IH]; intros idx i.
  - destruct i; reflexivity.
  - destruct i as [|i]; cbn [chunk_records_from nth_error option_map].
    + rewrite Z.add_0_r. reflexivity.
    + rewrite IH. destruct (nth_error texts i); cbn [option_map];
        [|reflexivity].
      do 2 f_equal. lia.
Qed.

(** What storing a chunked document does to the [chunks] collection: a
    document id is returned only with all the records appended, in the order
    of the texts; a failure leaves the collection as it was. *)
Lemma store_document_run (w : World) (user_id : str)
    (file : UploadFile) (file_path : str) (texts : list str) (st : state)
    (out : outcome str) (st' : state) :
  store_document w user_id file file_path texts st = (out, st') ->
  match out with
  | Ok document_id =>
      chunks st' =
      chunks st ++ chunk_records_from document_id user_id (utcnow w) 0 texts
  | Raise _ => chunks st' = chunks st
  end.
Proof.
  intros Hrun. PipelineFacts.unfold_run. PipelineFacts.split_run Hrun.
  all: cbn [chunks next_oid log_event bump_oid bump_oid_by add_document
            add_chunks set_log set_next_oid set_documents set_chunks] in *.
  all: try reflexivity.
  all: match goal with
       | Hq : chunk_records_from _ _ _ _ _ = _ |- _ => rewrite Hq
       end.
  all: rewrite ?app_nil_r; reflexivity.
Qed.

(** C9. The chunk records built for a document carry the indices
    [0, 1, 2, ...] in the order of the chunks, hence without repetition,
    each with the document's id. An ingestion that returns has parsed the
    uploaded file, cut the text with [chunk_text] and appended to the store,
    after the existing records and in one batch, exactly one record per
    chunk: the record at position [i] of the batch holds the [i]-th chunk
    [chunk_text] returned, under the index [i]. An ingestion that fails
    leaves the [chunks] collection as it was (and with a chunk size of at
    least 252 chunking always finishes). The chat, audio and translation
    handlers, the retrieval and the chunk count leave the [chunks]
    collection as it is. *)
Theorem chunk_indices_count_from_zero `{CaseTables} (w : World) :
  (forall (document_id user_id : str) (now : N) (texts : list str),
      let records := chunk_records_from document_id user_id now 0 texts in
      map c_chunk_index records
      = map Z.of_nat (seq 0 (List.length texts)) /\
      NoDup (map c_chunk_index records) /\
      map c_text records = texts /\
      Forall (fun r => c_document_id r = document_id /\
                       c_user_id r = user_id) records) /\
  (forall (user_id : str) (file : UploadFile) (st : state),
      match save_uploaded_file w user_id file st with
      | Some (Ok document_id, st') =>
          exists text texts,
            parse_file w (upload_path w user_id file) (file_content file)
            = inr text /\
            Chunker.chunk_text text (MAX_CHUNK_SIZE w) 128 = Some texts /\
            chunks st' =
            chunks st
            ++ chunk_records_from document_id user_id (utcnow w) 0 texts /\
            forall i : nat,
              nth_error (chunks st') (List.length (chunks st) + i) =
              option_map (chunk_record w document_id user_id i)
                         (nth_error texts i)
      | Some (Raise _, st') => chunks st' = chunks st
      | None => MAX_CHUNK_SIZE w < 252
      end) /\
  (forall (request : TextChatRequest) (st : state),
      chunks (snd (chat_text w request st)) = chunks st) /\
  (forall (user_id : str) (session_id : option str) (audio : bytes)
          (st : state),
      chunks (snd (chat_audio w user_id session_id audio st)) = chunks st) /\
  (forall (request : TranslationRequest) (st : state),
      chunks (snd (translate_text w request st)) = chunks st) /\
  (forall (user_id query : str) (limit : Z) (st : state),
      chunks (snd (get_relevant_chunks w user_id query limit st))
      = chunks st) /\
  (forall (document_id : str) (st : state),
      chunks (snd (chunks_count_documents w document_id st)) = chunks st).
Proof.
  split; [|split; [|split; [|split; [|split; [|split]]]]].
  - intros document_id user_id now texts records. subst records.
    assert (map c_chunk_index
              (chunk_records_from document_id user_id now 0 texts)
            = map Z.of_nat (seq 0 (List.length texts))) as Hidx.
    { rewrite chunk_records_from_index. apply map_ext. intros k. lia. }
    split; [exact Hidx|]. split; [rewrite Hidx; apply of_nat_seq_NoDup|].
    apply chunk_records_from_fields.
  - intros user_id file st. unfold save_uploaded_file, upload_path.
    cbv zeta.
    destruct (write_upload w _ (file_content file)) as [e|];
      [reflexivity|].
    destruct (parse_file w _ (file_content file)) as [msg|text] eqn:Hparse.
    { destruct (unlink_fault w _); reflexivity. }
    destruct (Chunker.chunk_text text (MAX_CHUNK_SIZE w) 128)
      as [texts|] eqn:Hchunk.
    + destruct (store_document w user_id file _ texts st)
        as [out st'] eqn:Hrun.
      pose proof (store_document_run w user_id file _ texts st out st' Hrun)
        as Hstored.
      destruct out as [document_id|e]; [|exact Hstored].
      exists text, texts. split; [reflexivity|]. split; [exact Hchunk|].
      split; [exact Hstored|]. intros i. rewrite Hstored.
      rewrite nth_error_app2 by lia.
      replace (List.length (chunks st) + i - List.length (chunks st))%nat
        with i by lia.
      rewrite chunk_records_from_nth. reflexivity.
    + destruct (Z.ltb_spec (MAX_CHUNK_SIZE w) 252) as [Hlt|Hge];
        [exact Hlt|].
      destruct (ChunkerFacts.chunk_text_returns text (MAX_CHUNK_SIZE w) 128)
        as (texts & Hsome & _); try lia.
      { assert (126 <= MAX_CHUNK_SIZE w / 2)
          by (apply Z.div_le_lower_bound; lia).
        lia. }
      rewrite Hsome in Hchunk. discriminate Hchunk.
  - intros request st.
    destruct (PipelineFacts.chat_text_run w request st
                (fst (chat_text w request st))
                (snd (chat_text w request st))) as [Hc _];
      [apply surjective_pairing|exact Hc].
  - intros user_id session_id audio st.
    destruct (PipelineFacts.chat_audio_run w user_id session_id audio st
                (fst (chat_audio w user_id session_id audio st))
                (snd (chat_audio w user_id session_id audio st)))
      as [Hc _]; [apply surjective_pairing|exact Hc].
  - intros request st.
    destruct (PipelineFacts.translate_text_run w request st
                (fst (translate_text w request st))
                (snd (translate_text w request st))) as [Hc _];
      [apply surjective_pairing|exact Hc].
  - intros user_id query limit st.
    destruct (get_relevant_chunks w user_id query limit st)
      as [out st'] eqn:Hrun.
    PipelineFacts.unfold_run. PipelineFacts.split_run Hrun.
    all: reflexivity.
  - intros document_id st.
    unfold chunks_count_documents, mongo_call, emit, bind, ret, raise.
    cbv beta iota zeta.
    destruct (mongo_fault w ChunksCountDocuments); reflexivity.
Qed.

(** Ingesting the sample upload into an empty store. *)
Example ingest_sample :
  match save_uploaded_file world_ok (lit "u1") an_upload empty_state with
  | Some (out, st') =>
      out = Ok (oid_str 0) /\
      chunks st' = [ {| c_document_id := oid_str 0;
                        c_user_id := lit "u1";
                        c_text := lit "Short text";
                        c_chunk_index := 0;
                        c_created_at := 0%N |} ]
  | None => False
  end.
Proof. vm_compute. split; reflexivity. Qed.

(** Ingesting a text of four chunks after a stored chunk: the new records
    follow it with the indices 0 to 3, in the order of [chunk_text]. *)
Example ingest_long_sample :
  match save_uploaded_file world_long_upload (lit "u1") an_upload
          (state_with_chunks [hello_chunk]),
        Chunker.chunk_text long_text 300 128 with
  | Some (out, st'), Some texts =>
      out = Ok (oid_str 0) /\
      map c_chunk_index (chunks st') = [0; 0; 1; 2; 3] /\
      map c_text (chunks st') = c_text hello_chunk :: texts
  | _, _ => False
  end.
Proof. vm_compute. repeat split; reflexivity. Qed.

End IngestFacts.

(* ===================================================================== *)
(** * More properties of the chunker *)
(* ===================================================================== *)

Module ChunkerMore.
Import Chunker Samples.

Lemma lstrip_idem (s : str) : lstrip (lstrip s) = lstrip s.
Proof.
  induction s as [|c s IH]; simpl; [reflexivity|].
  destruct (isspace c) eqn:Hc; [exact IH|]. simpl. rewrite Hc. reflexivity.
Qed.

Lemma lstrip_snoc (l : str) (c : codepoint) :
  isspace c = false -> lstrip (l ++ [c]) = lstrip l ++ [c].
Proof.
  intros Hc. induction l as [|d l IH]; simpl.
  - rewrite Hc. reflexivity.
  - destruct (isspace d); [exact IH|reflexivity].
Qed.

Lemma rstrip_cons (c : codepoint) (t : str) :
  isspace c = false -> rstrip (c :: t) = c :: rstrip t.
Proof.
  intros Hc. unfold rstrip. simpl.
  rewrite (lstrip_snoc _ _ Hc), rev_app_distr. reflexivity.
Qed.

Lemma rstrip_idem (s : str) : rstrip (rstrip s) = rstrip s.
Proof.
  unfold rstrip. rewrite rev_involutive, lstrip_idem. reflexivity.
Qed.

(** What [lstrip] returns is empty or starts with a non-space. *)
Lemma lstrip_head (s : str) :
  lstrip s = [] \/ exists c t, lstrip s = c :: t /\ isspace c = false.
Proof.
  induction s as [|c s IH]; simpl; [left; reflexivity|].
  destruct (isspace c) eqn:Hc; [exact IH|].
  right. exists c, s. split; [reflexivity|exact Hc].
Qed.

Lemma strip_idem (s : str) : strip (strip s) = strip s.
Proof.
  unfold strip.
  destruct (lstrip_head s) as [Hnil|(c & t & Heq & Hc)].
  - rewrite Hnil. reflexivity.
  - rewrite Heq, (rstrip_cons c t Hc). simpl. rewrite Hc.
    rewrite <- (rstrip_cons c t Hc). apply rstrip_idem.
Qed.

Lemma length_lstrip (s : str) : (List.length (lstrip s) <= List.length s)%nat.
Proof.
  induction s as [|c s IH]; simpl; [lia|].
  destruct (isspace c); simpl; lia.
Qed.

Lemma length_strip (s : str) : (List.length (strip s) <= List.length s)%nat.
Proof.
  unfold strip, rstrip. rewrite length_rev.
  pose proof (length_lstrip (rev (lstrip s))) as H1.
  rewrite length_rev in H1. pose proof (length_lstrip s). lia.
Qed.

(** A property of the chunks collected so far that every iteration keeps,
    together with a property of the cursor, holds of the result. *)
Lemma chunk_loop_invariant (text : str) (cs ov : Z)
    (I : Z * list str -> Prop) :
  (forall st, I st -> fst st < len text -> I (chunk_step text cs ov st)) ->
  forall (fuel : nat) (st : Z * list str) (r : list str),
    I st -> chunk_loop fuel text cs ov st = Some r ->
    exists start, I (start, r).
Proof.
  intros Hstep fuel. induction fuel as [|fuel IH]; intros [start chunks] r HI;
    cbn [chunk_loop fst snd].
  - destruct (start <? len text) eqn:Hs; [discriminate|].
    intros Hr. injection Hr as <-. exists start. exact HI.
  - destruct (start <? len text) eqn:Hs.
    + apply IH. apply Hstep; [exact HI|cbn [fst]; lia].
    + intros Hr. injection Hr as <-. exists start. exact HI.
Qed.

(** X1. Whatever the chunk size, the overlap and the number of iterations,
    a chunk that [chunk_text] returns is never empty and has no leading or
    trailing whitespace. *)
Theorem chunks_nonempty_and_stripped (fuel : nat) (text : str)
    (chunk_size overlap : Z) (chunks : list str) :
  chunk_text_fuel fuel text chunk_size overlap = Some chunks ->
  Forall (fun c => c <> [] /\ strip c = c) chunks.
Proof.
  unfold chunk_text_fuel. destruct text as [|c0 text'] eqn:Htext.
  - intros Hr. injection Hr as <-. constructor.
  - rewrite <- Htext. intros Hrun.
    destruct (chunk_loop_invariant text chunk_size overlap
                (fun st => Forall (fun c => c <> [] /\ strip c = c) (snd st)))
      with (fuel := fuel) (st := (0, @nil str)) (r := chunks)
      as [start Hres]; [| constructor | exact Hrun | exact Hres].
    intros [start acc] Hacc _. unfold chunk_step. cbv zeta. cbn [snd] in *.
    match goal with
    | |- context [strip ?x] => set (piece := strip x);
                               assert (strip piece = piece) as Hidem
                                 by apply strip_idem
    end.
    destruct piece as [|p piece'] eqn:Hp; cbn [snd]; [exact Hacc|].
    apply Forall_app. split; [exact Hacc|].
    constructor; [|constructor]. split; [discriminate|exact Hidem].
Qed.

Lemma chunks_nonempty_and_stripped_witness :
  Forall (fun c => c <> [] /\ strip c = c)
         [lit "This is sentence one."; lit "ence one. This is sentence two";
          lit "ntence two. This is sentence t"; lit "sentence three."].
Proof.
  apply (chunks_nonempty_and_stripped 67
           (lit "This is sentence one. This is sentence two. This is sentence three.")
           30 10).
  vm_compute. reflexivity.
Defined.


Lemma rfind_down_range (s sub : str) (lo : Z) (n : nat) :
  rfind_down s sub lo n = -1 \/
  lo <= rfind_down s sub lo n < lo + Z.of_nat n.
Proof.
  induction n as [|n IH]; cbn [rfind_down]; [left; reflexivity|].
  cbv zeta.
  destruct (startswith (skipn (Z.to_nat (lo + Z.of_nat n)) s) sub).
  - right. lia.
  - destruct IH as [IH|IH]; [left; exact IH|right; lia].
Qed.

(** A match reported by [rfind] lies inside the adjusted window. *)
Lemma rfind_bound (s sub : str) (start end_ : Z) :
  rfind s sub start end_ = -1 \/
  rfind s sub start end_ + len sub <= adjust_index (len s) end_.
Proof.
  unfold rfind. cbv zeta.
  set (a := adjust_index (len s) start).
  set (b := adjust_index (len s) end_).
  destruct (rfind_down_range s sub a (Z.to_nat (b - a - len sub + 1)))
    as [Hr|Hr]; [left; exact Hr|].
  right. lia.
Qed.

Lemma find_break_upper (text : str) (start end_ cs : Z) (seqs : list str)
    (best : Z) :
  Forall (fun q => len q = 2) seqs ->
  find_break text start end_ cs seqs best = best \/
  find_break text start end_ cs seqs best = 1 \/
  find_break text start end_ cs seqs best
  <= adjust_index (len text) end_.
Proof.
  intros Hall. induction Hall as [|q seqs Hq Hall IH]; cbn [find_break].
  - left. reflexivity.
  - cbv zeta.
    destruct (rfind text q start end_ >? start + cs / 2) eqn:Hpos;
      [|exact IH].
    destruct (rfind_bound text q start end_) as [Hr|Hr].
    + right. left. rewrite Hr, Hq. reflexivity.
    + right. right. exact Hr.
Qed.

(** With a cursor inside the text, the window of one iteration ends after
    the cursor and at most [chunk_size] characters later. *)
Lemma window_bounds (text : str) (cs start : Z) :
  0 < cs -> 0 <= start -> start + cs < len text ->
  let end_ :=
    find_break text start (start + cs) cs boundary_chars (start + cs) in
  start < end_ <= start + cs.
Proof.
  intros Hcs Hstart Hend. cbv zeta.
  pose proof (ChunkerFacts.find_break_bound text start (start + cs) cs
                boundary_chars (start + cs)
                ChunkerFacts.boundary_chars_len) as Hlow.
  cbv zeta in Hlow.
  pose proof (find_break_upper text start (start + cs) cs boundary_chars
                (start + cs) ChunkerFacts.boundary_chars_len) as Hup.
  set (r := find_break text start (start + cs) cs boundary_chars
              (start + cs)) in *.
  assert (0 <= cs / 2) by (apply Z.div_pos; lia).
  assert (adjust_index (len text) (start + cs) = start + cs) as Hadj.
  { unfold adjust_index. destruct (start + cs <? 0) eqn:Hneg; lia. }
  rewrite Hadj in Hup. lia.
Qed.

Lemma length_slice {A} (s : list A) (i j : Z) :
  0 <= i -> 0 <= j -> len (slice s i j) <= Z.max 0 (j - i).
Proof.
  intros Hi Hj0. unfold slice, len. cbv zeta.
  set (n := Z.of_nat (List.length s)).
  rewrite length_firstn.
  assert (adjust_index n i = Z.min i n) as ->
    by (unfold adjust_index; destruct (i <? 0) eqn:Hneg; lia).
  assert (0 <= n) by (unfold n; lia).
  assert (adjust_index n j = Z.min j n) as ->
    by (unfold adjust_index; destruct (j <? 0) eqn:Hneg; lia).
  lia.
Qed.

(** X2. With a small enough overlap, no chunk is longer than
    [chunk_size]. *)
Theorem chunks_within_chunk_size (fuel : nat) (text : str)
    (chunk_size overlap : Z) (chunks : list str) :
  0 < chunk_size -> 0 <= overlap -> overlap < chunk_size ->
  overlap <= chunk_size / 2 + 2 ->
  chunk_text_fuel fuel text chunk_size overlap = Some chunks ->
  Forall (fun c => len c <= chunk_size) chunks.
Proof.
  intros Hcs Hov Hlt Hhalf. unfold chunk_text_fuel.
  destruct text as [|c0 text'] eqn:Htext.
  - intros Hr. injection Hr as <-. constructor.
  - rewrite <- Htext. intros Hrun.
    destruct (chunk_loop_invariant text chunk_size overlap
                (fun st => 0 <= fst st /\
                           Forall (fun c => len c <= chunk_size) (snd st)))
      with (fuel := fuel) (st := (0, @nil str)) (r := chunks)
      as [start [_ Hres]];
      [| split; [cbn; lia|constructor] | exact Hrun | exact Hres].
    intros [start acc] [Hstart Hacc] Hin. cbn [fst snd] in *. split.
    + pose proof (ChunkerFacts.chunk_step_advances text chunk_size overlap
                    start acc Hcs Hov Hlt Hhalf Hin). lia.
    + unfold chunk_step. cbv zeta.
      set (end_ := if start + chunk_size <? len text
                   then find_break text start (start + chunk_size)
                          chunk_size boundary_chars (start + chunk_size)
                   else start + chunk_size).
      assert (start < end_ <= start + chunk_size) as Hend.
      { unfold end_. destruct (start + chunk_size <? len text) eqn:He;
          [|lia].
        apply (window_bounds text chunk_size start); lia. }
      pose proof (length_slice text start end_ Hstart ltac:(lia)) as Hsl.
      pose proof (length_strip (slice text start end_)) as Hst.
      unfold len in Hsl.
      destruct (strip (slice text start end_)) as [|p piece] eqn:Hp;
        cbn [snd]; [exact Hacc|].
      apply Forall_app. split; [exact Hacc|].
      constructor; [|constructor]. unfold len. lia.
Qed.

Lemma chunks_within_chunk_size_witness :
  Forall (fun c => len c <= 30)
         [lit "This is sentence one."; lit "ence one. This is sentence two";
          lit "ntence two. This is sentence t"; lit "sentence three."].
Proof.
  apply (chunks_within_chunk_size 67
           (lit "This is sentence one. This is sentence two. This is sentence three.")
           30 10); [lia|lia|lia|vm_compute; discriminate|].
  vm_compute. reflexivity.
Defined.

Lemma slice_all {A} (s : list A) (j : Z) : len s <= j -> slice s 0 j = s.
Proof.
  intros Hj. unfold slice, len in *. cbv zeta.
  set (n := Z.of_nat (List.length s)) in *.
  assert (adjust_index n 0 = 0) as ->
    by (unfold adjust_index; simpl; lia).
  assert (adjust_index n j = n) as ->
    by (unfold adjust_index; destruct (j <? 0) eqn:Hneg; lia).
  simpl. unfold n. rewrite Z.sub_0_r, Nat2Z.id. apply firstn_all.
Qed.

(** X3. A text no longer than [chunk_size] gives one chunk, the text
    without its surrounding whitespace, or no chunk when the text is blank;
    the overlap plays no part. *)
Theorem short_text_is_one_chunk (text : str) (chunk_size overlap : Z) :
  len text <= chunk_size ->
  chunk_text text chunk_size overlap =
  Some (match strip text with [] => [] | piece => [piece] end).
Proof.
  intros Hshort. unfold chunk_text, chunk_text_fuel.
  destruct text as [|c0 text'] eqn:Htext; [reflexivity|].
  rewrite <- Htext in *.
  assert (List.length text = S (List.length text')) as ->
    by (rewrite Htext; reflexivity).
  assert (0 < len text) as Hpos by (rewrite Htext; unfold len; simpl; lia).
  assert ((0 <? len text) = true) as Hfirst by lia.
  assert ((0 + chunk_size <? len text) = false) as Hend by lia.
  assert ((len text <? len text) = false) as Hdone by lia.
  cbn [chunk_loop fst]. rewrite Hfirst.
  unfold chunk_step. cbv beta iota zeta. rewrite !Hend.
  rewrite (slice_all text (0 + chunk_size)) by lia.
  destruct (List.length text') as [|k]; cbn [chunk_loop fst snd];
    rewrite Hdone; destruct (strip text); reflexivity.
Qed.

Lemma short_text_is_one_chunk_witness :
  chunk_text (lit "  Short text ") 100 10 = Some [lit "Short text"].
Proof.
  exact (short_text_is_one_chunk (lit "  Short text ") 100 10
           ltac:(vm_compute; discriminate)).
Defined.

(** One iteration with [overlap >= chunk_size] keeps the window of the next
    one inside the text. *)
Lemma chunk_step_stays_inside (text : str) (cs ov start : Z)
    (acc : list str) :
  0 < cs -> cs <= ov -> cs < len text -> start + cs < len text ->
  fst (chunk_step text cs ov (start, acc)) + cs < len text.
Proof.
  intros Hcs Hov Hlong Hin. unfold chunk_step. cbv zeta.
  assert ((start + cs <? len text) = true) as -> by lia.
  pose proof (find_break_upper text start (start + cs) cs boundary_chars
                (start + cs) ChunkerFacts.boundary_chars_len) as Hup.
  set (r := find_break text start (start + cs) cs boundary_chars
              (start + cs)) in *.
  assert (adjust_index (len text) (start + cs) < len text) as Hadj.
  { unfold adjust_index. destruct (start + cs <? 0) eqn:Hneg; lia. }
  assert (r < len text) as Hr by lia.
  assert ((r <? len text) = true) as -> by lia.
  cbn [fst]. lia.
Qed.

Lemma chunk_loop_never_ends (text : str) (cs ov : Z) :
  0 < cs -> cs <= ov -> cs < len text ->
  forall (fuel : nat) (st : Z * list str),
    fst st + cs < len text -> chunk_loop fuel text cs ov st = None.
Proof.
  intros Hcs Hov Hlong fuel. induction fuel as [|fuel IH]; intros [start acc] Hin;
    cbn [chunk_loop fst snd] in *.
  - assert ((start <? len text) = true) as -> by lia. reflexivity.
  - assert ((start <? len text) = true) as -> by lia.
    apply IH. apply chunk_step_stays_inside; assumption.
Qed.

(** X4. With [overlap >= chunk_size > 0], [chunk_text] never returns on a
    text longer than [chunk_size]: however many iterations are allowed, the
    loop condition still holds. *)
Theorem large_overlap_never_returns (text : str) (chunk_size overlap : Z)
    (fuel : nat) :
  0 < chunk_size -> chunk_size <= overlap -> chunk_size < len text ->
  chunk_text_fuel fuel text chunk_size overlap = None.
Proof.
  intros Hcs Hov Hlong. unfold chunk_text_fuel.
  destruct text as [|c0 text'] eqn:Htext.
  - unfold len in Hlong. simpl in Hlong. lia.
  - rewrite <- Htext in *.
    apply chunk_loop_never_ends; [exact Hcs|exact Hov|exact Hlong|].
    cbn [fst]. lia.
Qed.

Lemma large_overlap_never_returns_witness :
  chunk_text_fuel 1000 (lit "one two three four five") 10 10 = None.
Proof.
  apply large_overlap_never_returns; [lia|lia|vm_compute; reflexivity].
Defined.

End ChunkerMore.

(* ===================================================================== *)
(** * More properties of the router and of retrieval *)
(* ===================================================================== *)

Module RouterMore.
Import Router Samples.

Lemma startswith_app (s t sub : str) :
  startswith s sub = true -> startswith (s ++ t) sub = true.
Proof.
  revert s. induction sub as [|c sub IH]; intros s;
    [intros _; destruct (s ++ t); reflexivity|].
  destruct s as [|d s]; simpl; [discriminate|].
  rewrite !andb_true_iff. intros [Hc Hs]. split; [exact Hc|].
  apply IH. exact Hs.
Qed.

Lemma contains_app (sub s t : str) :
  contains sub s = true -> contains sub (s ++ t) = true.
Proof.
  induction s as [|d s IH]; simpl.
  - rewrite orb_false_r. intros Hs. destruct sub; [|discriminate Hs].
    destruct t; reflexivity.
  - rewrite !orb_true_iff. intros [Hs|Hs].
    + left. apply (startswith_app (d :: s) t sub Hs).
    + right. apply IH. exact Hs.
Qed.

(** X5. Appending anything to a text that is routed to the heavy backend
    leaves it on the heavy backend, provided that lowering the extended
    text still begins with the lowered text (the appended part does not
    change how the text itself is lowered; a lowering that works character
    by character always does): added context can escalate a turn, never
    the reverse. *)
Theorem appended_text_never_leaves_heavy `{CaseTables}
    (text suffix lang_code : str) :
  (exists rest, lower (text ++ suffix) = lower text ++ rest) ->
  choose_model text lang_code = heavy ->
  choose_model (text ++ suffix) lang_code = heavy.
Proof.
  intros [rest Hlower]. unfold choose_model.
  rewrite !RouterFacts.scan_keywords_existsb.
  assert (len text <= len (text ++ suffix)) as Hlen
    by (unfold len; rewrite length_app; lia).
  destruct (len (text ++ suffix) >? 300) eqn:Hlong'; [reflexivity|].
  assert ((len text >? 300) = false) as -> by lia.
  assert ((len text <=? 300) = true) as -> by lia.
  rewrite andb_true_r.
  destruct (existsb (fun k => contains k (lower text)) HEAVY_KEYWORDS)
    eqn:Hkw.
  - intros _.
    assert (existsb (fun k => contains k (lower (text ++ suffix)))
              HEAVY_KEYWORDS = true) as ->; [|reflexivity].
    apply existsb_exists. apply existsb_exists in Hkw.
    destruct Hkw as (k & Hin & Hk). exists k. split; [exact Hin|].
    rewrite Hlower. apply contains_app. exact Hk.
  - destruct (in_set lang_code INDIC_LANGS); [discriminate|].
    intros _.
    destruct (existsb (fun k => contains k (lower (text ++ suffix)))
                HEAVY_KEYWORDS); reflexivity.
Qed.

Lemma appended_text_never_leaves_heavy_witness :
  @choose_model ascii_tables
    (lit "Explain this" ++ nl ++ nl ++ lit "[Context from documents: notes]")
    (lit "hi") = heavy.
Proof.
  apply (@appended_text_never_leaves_heavy ascii_tables).
  - eexists. apply map_app.
  - vm_compute. reflexivity.
Defined.

End RouterMore.

Module RetrievalMore.
Import Trace Samples DocumentStore.

(** X6. Whatever the query, the pattern it becomes and the limit, a text
    that [get_relevant_chunks] returns is the text of a stored chunk of the
    requested owner. *)
Theorem retrieval_stays_with_the_owner `{CaseTables} (w : World)
    (user_id query : str) (limit : Z) (st : state) :
  match fst (get_relevant_chunks w user_id query limit st) with
  | Ok texts =>
      Forall (fun t =>
                exists c,
                  In c (chunks st) /\ c_user_id c = user_id /\ c_text c = t)
             texts
  | Raise _ => True
  end.
Proof.
  destruct (get_relevant_chunks w user_id query limit st)
    as [out st'] eqn:Hrun.
  PipelineFacts.unfold_run. PipelineFacts.split_run Hrun.
  all: cbn [fst]; try exact I; try (constructor; fail).
  all: apply Forall_forall; intros t Ht.
  all: apply in_map_iff in Ht; destruct Ht as (c & <- & Hc).
  all: apply RetrievalFacts.cursor_limit_incl in Hc.
  all: apply filter_In in Hc; destruct Hc as [Hin Hf].
  all: apply andb_true_iff in Hf; destruct Hf as [Hu _].
  all: apply RetrievalFacts.str_eqb_eq in Hu.
  all: exists c; cbn [chunks log_event set_log] in Hin.
  all: split; [exact Hin|split; [exact Hu|reflexivity]].
Qed.

(** X7. Only the first five keywords of a query count: two queries whose
    keyword lists agree on their first five entries get the same answer. *)
Theorem retrieval_reads_five_keywords `{CaseTables} (w : World)
    (user_id query1 query2 : str) (limit : Z) (st : state) :
  take 5 (keywords_of query1) = take 5 (keywords_of query2) ->
  get_relevant_chunks w user_id query1 limit st =
  get_relevant_chunks w user_id query2 limit st.
Proof.
  intros Hsame. unfold get_relevant_chunks. cbv zeta.
  fold (keywords_of query1). fold (keywords_of query2).
  destruct (keywords_of query1) as [|k1 ks1];
    destruct (keywords_of query2) as [|k2 ks2];
    try discriminate Hsame; [reflexivity|].
  rewrite Hsame. reflexivity.
Qed.

Lemma retrieval_reads_five_keywords_witness :
  @get_relevant_chunks ascii_tables world_ok (lit "u1")
    (lit "alpha beta1 gamma delta epsilon zeta1") 5
    (state_with_chunks [hello_chunk]) =
  @get_relevant_chunks ascii_tables world_ok (lit "u1")
    (lit "alpha beta1 gamma delta epsilon omega") 5
    (state_with_chunks [hello_chunk]).
Proof.
  apply (@retrieval_reads_five_keywords ascii_tables).
  vm_compute. reflexivity.
Defined.

End RetrievalMore.

(* ===================================================================== *)
(** * Properties of the prompt of the light backend *)
(* ===================================================================== *)

Module SarvamFacts.
Import Sarvam.

Lemma collect_parts_app (parts : list str) (l1 l2 : list dict_message) :
  collect_parts parts (l1 ++ l2) = collect_parts (collect_parts parts l1) l2.
Proof.
  revert parts. induction l1 as [|m l1 IH]; intros parts; [reflexivity|].
  cbn [app collect_parts]. cbv zeta.
  repeat match goal with
         | |- context [if ?b then _ else _] => destruct b
         end; apply IH.
Qed.

(** X8. A message whose role is none of [system], [user], [assistant]
    leaves no trace in the prompt, wherever it stands; a message without a
    role is rendered as a user turn; and for the two messages the gateway
    sends, the prompt is the system text, the user text and the open
    assistant turn, separated by blank lines. *)
Theorem prompt_renders_known_roles_only :
  (forall (before after : list dict_message) (msg : dict_message),
      known_role msg = false ->
      build_prompt (before ++ msg :: after) = build_prompt (before ++ after))
  /\
  (forall (before after : list dict_message) (content : option str),
      build_prompt
        (before ++ {| dm_role := None; dm_content := content |} :: after) =
      build_prompt
        (before
         ++ {| dm_role := Some (lit "user"); dm_content := content |}
         :: after)) /\
  (forall system_content text : str,
      build_prompt
        (map to_dict
           [ {| msg_role := system; msg_content := system_content |};
             {| msg_role := user; msg_content := text |} ]) =
      lit "System: " ++ system_content ++ nl ++ nl
      ++ lit "User: " ++ text ++ nl ++ nl ++ lit "Assistant:").
Proof.
  split; [|split].
  - intros before after msg Hrole. unfold build_prompt. cbv zeta.
    rewrite !collect_parts_app. cbn [collect_parts]. cbv zeta.
    unfold known_role in Hrole. cbv zeta in Hrole.
    apply orb_false_iff in Hrole. destruct Hrole as [Hrole Ha].
    apply orb_false_iff in Hrole. destruct Hrole as [Hs Hu].
    rewrite Hs, Hu, Ha. reflexivity.
  - intros before after content. unfold build_prompt. cbv zeta.
    rewrite !collect_parts_app. reflexivity.
  - intros system_content text. unfold build_prompt. cbv zeta.
    cbn [map to_dict msg_role msg_content role_name collect_parts
         get_or dm_role dm_content].
    change (str_eqb (lit "system") (lit "system")) with true.
    change (str_eqb (lit "user") (lit "system")) with false.
    change (str_eqb (lit "user") (lit "user")) with true.
    cbv iota. cbn [app join].
    rewrite <- !app_assoc. reflexivity.
Qed.

Lemma prompt_renders_known_roles_only_witness :
  build_prompt
    [ {| dm_role := Some (lit "system"); dm_content := Some (lit "Be brief.") |};
      {| dm_role := Some (lit "tool"); dm_content := Some (lit "42") |};
      {| dm_role := Some (lit "user"); dm_content := Some (lit "Hi") |} ] =
  build_prompt
    [ {| dm_role := Some (lit "system"); dm_content := Some (lit "Be brief.") |};
      {| dm_role := Some (lit "user"); dm_content := Some (lit "Hi") |} ].
Proof.
  exact (proj1 prompt_renders_known_roles_only
           [ {| dm_role := Some (lit "system");
                dm_content := Some (lit "Be brief.") |} ]
           [ {| dm_role := Some (lit "user"); dm_content := Some (lit "Hi") |} ]
           {| dm_role := Some (lit "tool"); dm_content := Some (lit "42") |}
           eq_refl).
Defined.

End SarvamFacts.

(* ===================================================================== *)
(** * Properties of the upload handler *)
(* ===================================================================== *)

Module FilesFacts.
Import Trace Samples DocumentStore Files Observe.

Lemma str_eqb_refl (a : str) : str_eqb a a = true.
Proof. apply RetrievalFacts.str_eqb_eq. reflexivity. Qed.

Lemma filter_none {A} (f : A -> bool) (l : list A) :
  Forall (fun x => f x = false) l -> filter f l = [].
Proof.
  induction 1 as [|x l Hx Hl IH]; simpl; [reflexivity|].
  rewrite Hx. exact IH.
Qed.

Lemma filter_all {A} (f : A -> bool) (l : list A) :
  Forall (fun x => f x = true) l -> filter f l = l.
Proof.
  induction 1 as [|x l Hx Hl IH]; simpl; [reflexivity|].
  rewrite Hx, IH. reflexivity.
Qed.

(** The records of one document are all counted under its id. *)
Lemma count_own_records (document_id user_id : str) (now : N)
    (texts : list str) (old : list chunk_rec) :
  Forall (fun c => c_document_id c <> document_id) old ->
  len (filter (fun c => str_eqb (c_document_id c) document_id)
              (old ++ chunk_records_from document_id user_id now 0 texts))
  = len texts.
Proof.
  intros Hfresh. rewrite filter_app, filter_none, filter_all.
  - destruct (IngestFacts.chunk_records_from_fields document_id user_id now
                texts 0) as [Htexts _].
    cbn [app]. unfold len. rewrite <- Htexts at 2. rewrite length_map.
    reflexivity.
  - destruct (IngestFacts.chunk_records_from_fields document_id user_id now
                texts 0) as [_ Hall].
    eapply Forall_impl; [|exact Hall].
    intros c [Hd _]. cbv beta. rewrite Hd. apply str_eqb_refl.
  - eapply Forall_impl; [|exact Hfresh].
    intros c Hne. cbv beta.
    destruct (str_eqb (c_document_id c) document_id) eqn:He; [|reflexivity].
    apply RetrievalFacts.str_eqb_eq in He. contradiction.
Qed.

(** What [upload_file] answers after a successful parse and chunking. *)
Lemma upload_after_chunking (w : World) (user_id : str) (file : UploadFile)
    (file_path : str) (texts : list str) (st : state)
    (out : outcome str) (st1 : state) :
  store_document w user_id file file_path texts st = (out, st1) ->
  Forall (fun c => c_document_id c <> oid_str (next_oid st)) (chunks st) ->
  match out with
  | Ok document_id =>
      forall resp st2,
        try_except
          (get_collection w ;;;
           chunk_count <- chunks_count_documents w document_id ;;
           ret {| up_document_id := document_id;
                  up_filename := filename file;
                  up_chunks := chunk_count |})
          (fun e => raise (upload_error e)) st1 = (Ok resp, st2) ->
        up_chunks resp = len texts /\ up_document_id resp = document_id /\
        document_id = oid_str (next_oid st)
  | Raise _ => True
  end.
Proof.
  intros Hrun Hfresh.
  PipelineFacts.unfold_run. PipelineFacts.split_run Hrun.
  all: try exact I.
  all: intros resp st2 Hcount.
  all: unfold chunks_count_documents, mongo_call, emit, bind, ret, raise,
         try_except in Hcount; cbv beta iota zeta in Hcount.
  all: repeat match type of Hcount with
              | context [mongo_db_set ?w] =>
                  match goal with
                  | Hq : mongo_db_set w = _ |- _ => rewrite Hq in Hcount
                  end
              end; cbv beta iota zeta in Hcount.
  all: destruct (mongo_fault w ChunksCountDocuments);
         cbv beta iota zeta in Hcount; try discriminate Hcount.
  all: apply pair_equal_spec in Hcount; destruct Hcount as [Hresp _].
  all: injection Hresp as <-.
  all: cbn [up_chunks up_document_id chunks next_oid log_event bump_oid
            bump_oid_by add_document add_chunks set_log set_next_oid
            set_documents set_chunks] in *.
  all: split; [|split; reflexivity].
  - match goal with
    | Hq : chunk_records_from _ _ _ _ ?t = [] |- _ =>
        assert (t = []) as ->
          by (destruct t; [reflexivity|discriminate Hq])
    end.
    rewrite filter_none; [reflexivity|].
    eapply Forall_impl; [|exact Hfresh].
    intros c Hne. cbv beta.
    destruct (str_eqb (c_document_id c) _) eqn:He; [|reflexivity].
    apply RetrievalFacts.str_eqb_eq in He. contradiction.
  - match goal with
    | Hq : chunk_records_from _ _ _ _ _ = _ |- _ => rewrite <- Hq
    end.
    apply count_own_records. exact Hfresh.
Qed.

(** X9. Round trip of an upload: when no stored chunk carries the id the
    new document receives, the chunk count in the upload response is the
    number of chunks the text was split into. *)
Theorem upload_reports_its_chunk_count (w : World) (user_id : str)
    (file : UploadFile) (st : state) :
  Forall (fun c => c_document_id c <> oid_str (next_oid st)) (chunks st) ->
  match upload_file w user_id file st with
  | Some (Ok resp, _) =>
      exists text texts,
        parse_file w
          (user_id ++ lit "_" ++ strftime w (utcnow w) ++ lit "_"
           ++ filename file) (file_content file) = inr text /\
        Chunker.chunk_text text (MAX_CHUNK_SIZE w) 128 = Some texts /\
        up_chunks resp = len texts /\
        up_filename resp = filename file
  | _ => True
  end.
Proof.
  intros Hfresh. unfold upload_file, save_uploaded_file. cbv zeta.
  destruct (write_upload w _ (file_content file)) as [e|]; [exact I|].
  destruct (parse_file w _ (file_content file)) as [msg|text] eqn:Hparse;
    [destruct (unlink_fault w _); exact I|].
  destruct (Chunker.chunk_text text (MAX_CHUNK_SIZE w) 128)
    as [texts|] eqn:Hchunk; [|exact I].
  destruct (store_document w user_id file _ texts st) as [out st1] eqn:Hrun.
  pose proof (upload_after_chunking w user_id file _ texts st out st1
                Hrun Hfresh) as Hpost.
  destruct out as [document_id|e]; [|exact I].
  match goal with
  | |- context [try_except ?c ?h st1] =>
      destruct (try_except c h st1) as [out2 st2] eqn:Hcount
  end.
  destruct out2 as [resp|e]; [|exact I].
  destruct (Hpost resp st2 eq_refl) as (Hn & _ & _).
  exists text, texts. split; [reflexivity|]. split; [exact Hchunk|].
  split; [exact Hn|].
  revert Hcount. unfold try_except, bind, ret, raise, get_collection,
    chunks_count_documents, mongo_call, emit.
  cbv beta iota zeta.
  destruct (mongo_db_set w); cbv beta iota zeta; [|discriminate].
  destruct (mongo_fault w ChunksCountDocuments); cbv beta iota zeta;
    [discriminate|].
  intros Hcount. apply pair_equal_spec in Hcount.
  destruct Hcount as [Hresp _]. injection Hresp as <-. reflexivity.
Qed.

Lemma upload_reports_its_chunk_count_witness :
  match upload_file world_ok (lit "u1") an_upload
          (state_with_chunks [hello_chunk; other_chunk]) with
  | Some (Ok resp, _) => up_chunks resp = 1
  | _ => False
  end.
Proof.
  pose proof (upload_reports_its_chunk_count world_ok (lit "u1") an_upload
                (state_with_chunks [hello_chunk; other_chunk])
                ltac:(repeat constructor; vm_compute; discriminate))
    as Hpost.
  destruct (upload_file world_ok (lit "u1") an_upload
              (state_with_chunks [hello_chunk; other_chunk]))
    as [[[resp|e] st']|] eqn:Hrun; try (vm_compute in Hrun; discriminate).
  destruct Hpost as (text & texts & Hparse & Hchunk & Hn & _).
  vm_compute in Hparse. injection Hparse as <-.
  vm_compute in Hchunk. injection Hchunk as <-.
  exact Hn.
Defined.

(** X10. A failed upload always ends in an [HTTPException]. Status 400
    comes with the stores untouched and is either [open]'s refusal of the
    file name or a parse failure, with ["Failed to parse file: "] before its
    cause; every other failure (of the file system or of the store) gives
    status 500 with ["Upload failed: "] before the cause. In particular a
    file name with a NUL character is answered with status 400 and
    ["embedded null byte"], and a file that cannot be parsed with status
    400 and the parse message. *)
Theorem upload_failures_are_http_errors (w : World) (user_id : str)
    (file : UploadFile) (st : state) :
  let path := upload_path w user_id file in
  match upload_file w user_id file st with
  | Some (Raise e, st') =>
      (exists msg,
          e = HTTPException 400 msg /\ st' = st /\
          (path_refused w path = Some msg \/
           (existsb (cp_eqb 0%N) path = true /\
            msg = lit "embedded null byte") \/
           exists cause,
             parse_file w path (file_content file) = inl cause /\
             msg = lit "Failed to parse file: " ++ cause)) \/
      (exists msg, e = HTTPException 500 (lit "Upload failed: " ++ msg))
  | _ => True
  end /\
  (mkdir_fault w = None -> path_refused w path = None ->
   existsb (cp_eqb 0%N) path = true ->
   upload_file w user_id file st =
   Some (Raise (HTTPException 400 (lit "embedded null byte")), st)) /\
  (forall cause,
      write_upload w path (file_content file) = None ->
      parse_file w path (file_content file) = inl cause ->
      unlink_fault w path = None ->
      upload_file w user_id file st =
      Some (Raise (HTTPException 400
                     (lit "Failed to parse file: " ++ cause)), st)).
Proof.
  cbv zeta. unfold upload_file, save_uploaded_file, upload_path. cbv zeta.
  split; [|split].
  - unfold write_upload.
    destruct (mkdir_fault w) as [failure|];
      [right; exists failure; reflexivity|].
    destruct (path_refused w _) as [refusal|] eqn:Hpath;
      [left; exists refusal; split; [reflexivity|];
       split; [reflexivity|left; reflexivity]|].
    destruct (existsb (cp_eqb 0%N) _) eqn:Hnul;
      [left; eexists; split; [reflexivity|]; split; [reflexivity|];
       right; left; split; reflexivity|].
    destruct (write_fault w _ (file_content file)) as [failure|];
      [right; exists failure; reflexivity|].
    destruct (parse_file w _ (file_content file)) as [cause|text] eqn:Hparse.
    { destruct (unlink_fault w _) as [failure|];
        [right; exists failure; reflexivity|].
      left. eexists. split; [reflexivity|]. split; [reflexivity|].
      right. right. exists cause. split; reflexivity. }
    destruct (Chunker.chunk_text text (MAX_CHUNK_SIZE w) 128)
      as [texts|]; [|exact I].
    destruct (store_document w user_id file _ texts st) as [out st1] eqn:Hrun.
    PipelineFacts.unfold_run. PipelineFacts.split_run Hrun.
    all: unfold chunks_count_documents, mongo_call, emit, bind, ret, raise;
      cbv beta iota zeta.
    all: repeat first
           [ exact I
           | right; eexists; reflexivity
           | match goal with
             | |- context [mongo_fault ?w ?op] =>
                 destruct (mongo_fault w op); cbv beta iota zeta
             end ].
  - intros Hmkdir Hpath Hnul. unfold write_upload.
    rewrite Hmkdir, Hpath, Hnul. reflexivity.
  - intros cause Hwrite Hparse Hunlink.
    rewrite Hwrite, Hparse, Hunlink. reflexivity.
Qed.

Lemma upload_failures_are_http_errors_witness :
  upload_file world_ok (lit "u1") nul_upload
    (state_with_chunks [hello_chunk]) =
  Some (Raise (HTTPException 400 (lit "embedded null byte")),
        state_with_chunks [hello_chunk]) /\
  upload_file world_parse_fails (lit "u1") an_upload
    (state_with_chunks [hello_chunk]) =
  Some (Raise (HTTPException 400
                 (lit "Failed to parse file: Unsupported file type: .exe")),
        state_with_chunks [hello_chunk]).
Proof.
  split.
  - apply (proj1 (proj2 (upload_failures_are_http_errors world_ok (lit "u1")
                           nul_upload (state_with_chunks [hello_chunk]))));
      reflexivity.
  - apply (proj2 (proj2 (upload_failures_are_http_errors world_parse_fails
                           (lit "u1") an_upload
                           (state_with_chunks [hello_chunk]))));
      reflexivity.
Defined.

End FilesFacts.

(* ===================================================================== *)
(** * Postconditions of the handlers *)
(* ===================================================================== *)

Module TurnFacts.
Import Router Trace Samples Routes Observe.

(** Rewriting the goal with what the path taken has fixed. *)
Ltac use_path :=
  repeat match goal with
         | Hq : ?l = _ |- context [?l] =>
             lazymatch l with
             | Ok _ => fail
             | Raise _ => fail
             | _ => rewrite Hq
             end
         end.

(** X11. [MemoriWrapper.chat] answers with the backend's reply, or with the
    backend's exception, whatever happens to its own record of the
    exchange: a failure to store that record is swallowed. When the record
    is stored, it holds the text as it was passed in. *)
Theorem memori_recording_failure_is_swallowed `{CaseTables} (w : World)
    (user_id session_id text lang : str) (st : state) :
  let r := Memori.chat w user_id session_id text lang st in
  let b := backend_of (choose_model text lang) in
  exists messages,
    fst r =
      match LLM.backend_reply w b messages with
      | inr reply =>
          Ok {| Memori.reply := reply;
                Memori.model_used := model_name b;
                Memori.session_id := session_id |}
      | inl msg => Raise (Exception msg)
      end /\
    (memori_messages (snd r) = memori_messages st \/
     exists reply,
       LLM.backend_reply w b messages = inr reply /\
       mongo_fault w MemoriMessagesInsertOne = None /\
       memori_messages (snd r) =
       memori_messages st
       ++ [ {| mm_entity_id := user_id;
               mm_process_id := lit "drishti-ai";
               mm_session_id := session_id;
               mm_user_message := text;
               mm_assistant_message := reply;
               mm_model_used := model_name b;
               mm_timestamp := utcnow w |} ]).
Proof.
  cbv zeta.
  destruct (Memori.chat w user_id session_id text lang st)
    as [out st'] eqn:Hrun.
  PipelineFacts.unfold_run. PipelineFacts.split_run Hrun.
  all: cbn [fst snd backend_of model_name]; PipelineFacts.project_goal.
  all: eexists; split;
    [ match goal with
      | Hq : LLM.backend_reply _ _ _ = _ |- _ => rewrite Hq
      end; reflexivity | ].
  all: first
         [ left; reflexivity
         | right; eexists; split; [eassumption|];
           split; [first [assumption|reflexivity]|reflexivity] ].
Qed.

(** What a translation request does. *)
Lemma translate_text_post (w : World) (request : TranslationRequest)
    (st : state) (out : outcome TranslationResponse) (st' : state) :
  translate_text w request st = (out, st') ->
  same_collections st' st /\ next_oid st' = next_oid st /\
  (llm_client_set w = true ->
   let b := if in_set (tr_source_lang request) INDIC_LANGS
               || in_set (tr_target_lang request) INDIC_LANGS
            then Sarvam else Llama in
   let messages :=
     [ {| msg_role := user;
          msg_content :=
            LLM.translation_prompt (tr_source_lang request)
              (tr_target_lang request) (tr_text request) |} ] in
   exists rest,
     log st' = (log st ++ [LLMCall b messages]) ++ rest /\
     llm_called rest = false /\
     (tr_tts request = false -> rest = []) /\
     match LLM.backend_reply w b messages with
     | inl msg =>
         out = Raise (HTTPException 500
                        (lit "Translation failed: " ++ msg)) /\
         rest = []
     | inr translated =>
         exists audio,
           out = Ok {| input_text := tr_text request;
                       translated_text := translated;
                       source_lang := tr_source_lang request;
                       target_lang := tr_target_lang request;
                       audio_base64 := audio |} /\
           (tr_tts request = false -> audio = None)
     end).
Proof.
  intros Hrun. PipelineFacts.unfold_run. PipelineFacts.split_run Hrun.
  all: unfold same_collections; PipelineFacts.project_goal.
  all: split; [repeat split|]; split; [reflexivity|].
  all: intros Hset; try (rewrite Hset in *; discriminate).
  all: cbv zeta; use_path; cbv iota.
  all: unfold LLM.translation_prompt in *.
  all: first
         [ exists []; split; [rewrite app_nil_r; reflexivity|]
         | eexists; split; [reflexivity|] ].
  all: split; [reflexivity|].
  all: split; [intros Ht; first [reflexivity|discriminate Ht]|].
  all: first
         [ split; reflexivity
         | eexists; split;
           [reflexivity|intros Ht; first [reflexivity|discriminate Ht]] ].
Qed.

(** X12. A translation makes exactly one backend call, to Sarvam when the
    source or the target language is one of the ten Indic codes and to
    Llama otherwise, whatever the text; a failed call is answered with
    HTTP 500 and ["Translation failed: "] before the cause, a successful
    one with the reply as the translated text. *)
Theorem translation_backend_follows_language_pair (w : World)
    (request : TranslationRequest) (st : state) :
  llm_client_set w = true ->
  let r := translate_text w request st in
  let b := if in_set (tr_source_lang request) INDIC_LANGS
              || in_set (tr_target_lang request) INDIC_LANGS
           then Sarvam else Llama in
  let messages :=
    [ {| msg_role := user;
         msg_content :=
           LLM.translation_prompt (tr_source_lang request)
             (tr_target_lang request) (tr_text request) |} ] in
  (exists rest,
      log (snd r) = (log st ++ [LLMCall b messages]) ++ rest /\
      llm_called rest = false) /\
  match LLM.backend_reply w b messages with
  | inl msg =>
      fst r = Raise (HTTPException 500 (lit "Translation failed: " ++ msg))
  | inr translated =>
      exists resp,
        fst r = Ok resp /\ translated_text resp = translated /\
        input_text resp = tr_text request
  end.
Proof.
  intros Hset. cbv zeta.
  destruct (translate_text_post w request st
              (fst (translate_text w request st))
              (snd (translate_text w request st)))
    as (_ & _ & Hpost); [apply surjective_pairing|].
  destruct (Hpost Hset) as (rest & Hlog & Hquiet & _ & Hout).
  split; [exists rest; split; assumption|].
  destruct (LLM.backend_reply w _ _) as [msg|translated].
  - apply Hout.
  - destruct Hout as (audio & Hok & _). eexists. split; [exact Hok|].
    split; reflexivity.
Qed.

Lemma translation_backend_follows_language_pair_witness :
  exists resp,
    fst (translate_text world_llama_down (translation (lit "en") (lit "hi")
                                            false) empty_state) = Ok resp /\
    translated_text resp = lit "namaste".
Proof.
  destruct (translation_backend_follows_language_pair world_llama_down
              (translation (lit "en") (lit "hi") false) empty_state
              eq_refl) as [_ Hout].
  vm_compute in Hout. destruct Hout as (resp & Hok & Htr & _).
  exists resp. split; [vm_compute; exact Hok|exact Htr].
Defined.

(** X13. A translation request reads and writes no collection and takes no
    id; without the [tts] flag it calls nothing but the one backend and the
    audio of its response is null. *)
Theorem translation_leaves_the_stores_alone (w : World)
    (request : TranslationRequest) (st : state) :
  let r := translate_text w request st in
  same_collections (snd r) st /\ next_oid (snd r) = next_oid st /\
  (tr_tts request = false ->
   tts_called (log (snd r)) = tts_called (log st) /\
   forall resp, fst r = Ok resp -> audio_base64 resp = None).
Proof.
  cbv zeta.
  destruct (translate_text w request st) as [out st'] eqn:Hrun.
  cbn [fst snd].
  destruct (translate_text_post w request st out st' Hrun)
    as (Hsame & Hoid & Hpost).
  split; [exact Hsame|]. split; [exact Hoid|]. intros Htts.
  destruct (llm_client_set w) eqn:Hset.
  - destruct (Hpost eq_refl) as (rest & Hlog & _ & Hrest & Hout).
    rewrite Hlog, (Hrest Htts), app_nil_r. unfold tts_called.
    rewrite PipelineFacts.existsb_snoc, orb_false_r.
    split; [reflexivity|].
    intros resp Hresp. destruct (LLM.backend_reply w _ _).
    + destruct Hout as [Hout _]. rewrite Hout in Hresp. discriminate Hresp.
    + destruct Hout as (audio & Hok & Hnone). rewrite Hok in Hresp.
      apply PipelineFacts.Ok_inj in Hresp. subst resp. apply Hnone. exact Htts.
  - revert Hrun. unfold translate_text. rewrite Hset. cbn [negb].
    unfold raise. intros Hrun. apply pair_equal_spec in Hrun.
    destruct Hrun as [<- <-]. split; [reflexivity|]. discriminate.
Qed.

Lemma translation_leaves_the_stores_alone_witness :
  tts_called
    (log (snd (translate_text world_ok
                 (translation (lit "en") (lit "fr") false)
                 (state_with_chunks [hello_chunk])))) = false /\
  chunks (snd (translate_text world_ok
                 (translation (lit "en") (lit "fr") false)
                 (state_with_chunks [hello_chunk]))) = [hello_chunk].
Proof.
  destruct (translation_leaves_the_stores_alone world_ok
              (translation (lit "en") (lit "fr") false)
              (state_with_chunks [hello_chunk]))
    as ((_ & _ & _ & Hchunks & _) & _ & Htts).
  destruct (Htts eq_refl) as [Hcalled _].
  split; [exact Hcalled|exact Hchunks].
Defined.

(** What an audio turn has done when it answers. *)
Lemma chat_audio_post `{CaseTables} (w : World) (user_id : str)
    (session_id : option str) (audio : bytes)
    (st : state) (out : outcome AudioChatResponse) (st' : state) :
  chat_audio w user_id session_id audio st = (out, st') ->
  forall resp, out = Ok resp ->
    exists text lang audio_bytes,
      transcribe_audio w audio = inr (text, lang) /\
      a_user_text resp = text /\ a_lang resp = lang /\
      synthesize_speech w (a_assistant_text resp) lang = inr audio_bytes /\
      a_audio_base64 resp = b64encode w audio_bytes /\
      a_audio_format resp = lit "wav" /\
      (exists b msgs,
          LLM.backend_reply w b msgs = inr (a_assistant_text resp) /\
          a_model_used resp = model_name b) /\
      messages st' =
        messages st
        ++ [ user_message w (a_session_id resp) text lang;
             assistant_message w (a_session_id resp) (a_assistant_text resp)
               lang (a_model_used resp) ].
Proof.
  intros Hrun. PipelineFacts.unfold_run. PipelineFacts.split_run Hrun.
  all: PipelineFacts.answered_case.
  all: repeat match goal with
              | p : (str * str)%type |- _ => destruct p
              end; cbn [fst snd] in *.
  all: eexists; eexists; eexists.
  all: repeat split; try reflexivity; try eassumption.
  all: eexists; eexists; split; [eassumption|reflexivity].
Qed.

(** X14. When a text turn answers, the response echoes the text as the
    user sent it and the language resolved for the turn; the reply is what
    one backend returned and [model_used] names that backend; exactly two
    message records are appended, the user's with the text as sent (not
    the text with context) and the assistant's with the reply; the session
    id is the one supplied, or that of the one session record created. *)
Theorem answered_text_turn `{CaseTables} (w : World)
    (request : TextChatRequest) (st : state) (resp : TextChatResponse) :
  fst (chat_text w request st) = Ok resp ->
  let st' := snd (chat_text w request st) in
  user_text resp = rq_text request /\
  lang resp = resolved_lang w request /\
  (exists b msgs,
      LLM.backend_reply w b msgs = inr (assistant_text resp) /\
      model_used resp = model_name b) /\
  messages st' =
    messages st
    ++ [ user_message w (session_id resp) (rq_text request) (lang resp);
         assistant_message w (session_id resp) (assistant_text resp)
           (lang resp) (model_used resp) ] /\
  match rq_session_id request with
  | Some (c :: s) =>
      session_id resp = c :: s /\
      List.length (sessions st') = List.length (sessions st)
  | _ =>
      session_id resp = oid_str (next_oid st + 1) /\
      List.length (sessions st') = S (List.length (sessions st))
  end.
Proof.
  intros Hok st'. subst st'.
  destruct (PipelineFacts.chat_text_post w request st (fst (chat_text w request st))
              (snd (chat_text w request st))) as [Hpost _];
    [apply surjective_pairing|].
  exact (Hpost resp Hok).
Qed.

Lemma answered_text_turn_witness :
  let sid := lit "65f0c0ffee65f0c0ffee  01" in
  let r := @chat_text ascii_tables world_ok
             (request_with_session sid (lit "Hello") (lit "auto"))
             empty_state in
  exists resp,
    fst r = Ok resp /\
    session_id resp = sid /\
    lang resp = lit "en" /\
    List.length (messages (snd r)) = 2%nat /\
    List.length (sessions (snd r)) = 0%nat.
Proof.
  cbv zeta.
  destruct (@chat_text ascii_tables world_ok
              (request_with_session (lit "65f0c0ffee65f0c0ffee  01")
                 (lit "Hello") (lit "auto"))
              empty_state) as [[resp|e] st'] eqn:Hrun;
    [|vm_compute in Hrun; discriminate Hrun].
  pose proof (@answered_text_turn ascii_tables world_ok
                (request_with_session (lit "65f0c0ffee65f0c0ffee  01")
                   (lit "Hello") (lit "auto"))
                empty_state resp) as Hpost.
  rewrite Hrun in Hpost. cbn [fst snd] in Hpost.
  destruct (Hpost eq_refl) as (_ & Hlang & _ & Hmsgs & Hsid & Hsess).
  exists resp. split; [reflexivity|]. split; [exact Hsid|].
  split; [exact Hlang|]. split.
  - cbn [snd]. rewrite Hmsgs. reflexivity.
  - cbn [snd]. exact Hsess.
Defined.

(** X15. A text turn with a supplied session id that is not 24 characters
    long never answers; when the error is the id's rejection, the reply
    was already generated and both message records are stored. *)
Theorem short_session_id_fails_late `{CaseTables} (w : World)
    (request : TextChatRequest) (sid : str) (st : state) :
  rq_session_id request = Some sid -> sid <> [] ->
  List.length sid <> 24%nat ->
  let r := chat_text w request st in
  (exists e, fst r = Raise e) /\
  (fst r = Raise (InvalidId sid) ->
   exists reply model,
     messages (snd r) =
       messages st
       ++ [ user_message w sid (rq_text request) (resolved_lang w request);
            assistant_message w sid reply (resolved_lang w request)
              model ]).
Proof.
  intros Hsid Hne Hlen r. subst r.
  destruct (PipelineFacts.chat_text_post w request st (fst (chat_text w request st))
              (snd (chat_text w request st))) as (_ & Hbad & _);
    [apply surjective_pairing|].
  exact (Hbad sid Hsid Hne Hlen).
Qed.

Lemma short_session_id_fails_late_witness :
  let r := @chat_text ascii_tables world_ok
             (request_with_session (lit "test_session_456") (lit "Hello")
                (lit "en")) empty_state in
  fst r = Raise (InvalidId (lit "test_session_456")) /\
  List.length (messages (snd r)) = 2%nat.
Proof.
  cbv zeta.
  destruct (@short_session_id_fails_late ascii_tables world_ok
              (request_with_session (lit "test_session_456") (lit "Hello")
                 (lit "en"))
              (lit "test_session_456") empty_state eq_refl
              ltac:(discriminate) ltac:(vm_compute; discriminate))
    as [_ Hlate].
  assert (fst (@chat_text ascii_tables world_ok
                 (request_with_session (lit "test_session_456")
                    (lit "Hello") (lit "en")) empty_state)
          = Raise (InvalidId (lit "test_session_456"))) as Hout
    by (vm_compute; reflexivity).
  split; [exact Hout|].
  destruct (Hlate Hout) as (reply & model & Hmsgs).
  rewrite Hmsgs. reflexivity.
Defined.

(** X16. A text turn whose query has no keyword makes no chunk lookup, and
    a backend call it makes is to the backend [choose_model] picks for the
    text as the user sent it, with that text as the user message. *)
Theorem keywordless_turn_routes_on_raw_text `{CaseTables} (w : World)
    (request : TextChatRequest) (st : state) :
  keywords_of (rq_text request) = [] ->
  let r := chat_text w request (turn_start st) in
  store_searched (log (snd r)) = false /\
  forall b msgs, In (LLMCall b msgs) (log (snd r)) ->
    b = backend_of
          (choose_model (rq_text request) (resolved_lang w request)) /\
    msgs = [ {| msg_role := system; msg_content := LLM.SYSTEM_PROMPT |};
             {| msg_role := user; msg_content := rq_text request |} ].
Proof.
  intros Hkw r. subst r.
  destruct (PipelineFacts.chat_text_post w request (turn_start st)
              (fst (chat_text w request (turn_start st)))
              (snd (chat_text w request (turn_start st))))
    as (_ & _ & Hraw & _); [apply surjective_pairing|].
  exact (Hraw eq_refl Hkw).
Qed.

Lemma keywordless_turn_routes_on_raw_text_witness :
  let r := @chat_text ascii_tables world_ok
             (request_with_session a_session (lit "hi") (lit "hi"))
             (turn_start (state_with_chunks [greeting_chunk])) in
  store_searched (log (snd r)) = false /\
  In (LLMCall Sarvam
        [ {| msg_role := system; msg_content := LLM.SYSTEM_PROMPT |};
          {| msg_role := user; msg_content := lit "hi" |} ])
     (log (snd r)).
Proof.
  cbv zeta.
  destruct (@keywordless_turn_routes_on_raw_text ascii_tables world_ok
              (request_with_session a_session (lit "hi") (lit "hi"))
              (state_with_chunks [greeting_chunk]) eq_refl)
    as [Hsearch _].
  split; [exact Hsearch|]. vm_compute. left. reflexivity.
Defined.

(** X17. When an audio turn answers, the response carries the transcribed
    text and language, the reply one backend returned under that backend's
    name, and as audio the base64 of what the synthesiser returned for that
    reply, in format ["wav"]; the two message records appended hold the
    transcription and the reply. *)
Theorem answered_audio_turn `{CaseTables} (w : World) (user_id : str)
    (session_id : option str) (audio : bytes) (st : state)
    (resp : AudioChatResponse) :
  fst (chat_audio w user_id session_id audio st) = Ok resp ->
  let st' := snd (chat_audio w user_id session_id audio st) in
  exists text lang audio_bytes,
    transcribe_audio w audio = inr (text, lang) /\
    a_user_text resp = text /\ a_lang resp = lang /\
    synthesize_speech w (a_assistant_text resp) lang = inr audio_bytes /\
    a_audio_base64 resp = b64encode w audio_bytes /\
    a_audio_format resp = lit "wav" /\
    (exists b msgs,
        LLM.backend_reply w b msgs = inr (a_assistant_text resp) /\
        a_model_used resp = model_name b) /\
    messages st' =
      messages st
      ++ [ user_message w (a_session_id resp) text lang;
           assistant_message w (a_session_id resp) (a_assistant_text resp)
             lang (a_model_used resp) ].
Proof.
  intros Hok st'. subst st'.
  exact (chat_audio_post w user_id session_id audio st
           (fst (chat_audio w user_id session_id audio st))
           (snd (chat_audio w user_id session_id audio st))
           (surjective_pairing _) resp Hok).
Qed.

Lemma answered_audio_turn_witness :
  let r := @chat_audio ascii_tables world_ok (lit "u1")
             (Some (lit "65f0c0ffee65f0c0ffee  01")) [] empty_state in
  exists resp,
    fst r = Ok resp /\ a_user_text resp = lit "hello there" /\
    a_audio_format resp = lit "wav".
Proof.
  cbv zeta.
  destruct (@chat_audio ascii_tables world_ok (lit "u1")
              (Some (lit "65f0c0ffee65f0c0ffee  01")) [] empty_state)
    as [[resp|e] st'] eqn:Hrun;
    [|vm_compute in Hrun; discriminate Hrun].
  pose proof (@answered_audio_turn ascii_tables world_ok (lit "u1")
                (Some (lit "65f0c0ffee65f0c0ffee  01")) [] empty_state resp)
    as Hpost.
  rewrite Hrun in Hpost. cbn [fst snd] in Hpost.
  destruct (Hpost eq_refl)
    as (text & lang & audio_bytes & Hstt & Htext & _ & _ & _ & Hfmt & _).
  exists resp. split; [reflexivity|]. split; [|exact Hfmt].
  rewrite Htext. vm_compute in Hstt. injection Hstt as <- _. reflexivity.
Defined.

(** X18. When the transcription of an audio turn fails, the turn ends with
    HTTP 400 and ["STT error: "] before the cause, and nothing else has
    happened: no session or message is stored and no backend is called. *)
Theorem failed_transcription_stops_the_turn `{CaseTables} (w : World)
    (user_id : str) (session_id : option str) (audio : bytes)
    (st : state) (msg : str) :
  memori_wrapper_set w = true -> whisper_service w = None ->
  transcribe_audio w audio = inl msg ->
  chat_audio w user_id session_id audio st =
  (Raise (HTTPException 400 (lit "STT error: " ++ msg)),
   log_event (STTCall audio) st).
Proof.
  intros Hset Hwhisper Hstt. unfold chat_audio. rewrite Hset, Hwhisper.
  cbn [negb]. unfold bind at 1. unfold ret at 1. cbv beta iota.
  unfold bind at 1. unfold try_except at 1.
  unfold bind at 1. unfold emit at 1. cbv beta iota.
  rewrite Hstt. reflexivity.
Qed.

Lemma failed_transcription_stops_the_turn_witness :
  @chat_audio ascii_tables world_stt_down (lit "u1") None [] empty_state =
  (Raise (HTTPException 400 (lit "STT error: Failed to load audio")),
   log_event (STTCall []) empty_state).
Proof.
  exact (@failed_transcription_stops_the_turn ascii_tables world_stt_down
           (lit "u1") None [] empty_state (lit "Failed to load audio")
           eq_refl eq_refl eq_refl).
Defined.

(** X19. A session title is at most 53 characters long, and it is the text
    itself when the text has at most 50 characters. *)
Theorem session_title_is_short (text : str) :
  len (title_of text) <= 53 /\
  (len text <= 50 -> title_of text = text).
Proof.
  unfold title_of, take, len. split.
  - rewrite length_app, length_firstn.
    destruct (Z.of_nat (List.length text) >? 50); cbn [List.length lit];
      [change (List.length (lit "...")) with 3%nat|]; lia.
  - intros Hshort.
    assert ((Z.of_nat (List.length text) >? 50) = false) as -> by lia.
    rewrite app_nil_r. apply firstn_all2. lia.
Qed.

Lemma session_title_is_short_witness :
  title_of (lit "Hello") = lit "Hello".
Proof.
  apply (proj2 (session_title_is_short (lit "Hello"))).
  vm_compute. discriminate.
Defined.

End TurnFacts.
